(** * http-errors: a shallow embedding of [index.js] and its specification

    The module builds, from the status registry, one error class per 4xx and
    5xx status code, and exports a variadic factory [createError] together
    with the recognition predicate [isHttpError].

    Modelling conventions.
    - JavaScript values are the inductive [value]; objects live in a heap and
      are referred to by location, so that aliasing and in-place decoration
      are visible.
    - Numbers are the integers together with NaN and the two infinities
      (negative zero is identified with zero, and non-integral numbers are
      left out: the factory treats them as it treats unregistered integers).
    - An object is a class (its prototype chain) and a finite map of own data
      properties, all enumerable on a property bag. Accessor properties,
      frozen objects, symbol keys, enumerable properties inherited from a
      prototype, the [stack] property and the names of functions (what
      [nameFunc] sets) are outside the model. A class is fixed once an
      object exists: copying the key [__proto__] from a property bag creates
      no own property, as in the program, but the prototype this assignment
      installs is not represented: the theorems that rest on the class of
      the returned error, or on the keys a bag gives it, are stated for bags
      that do not own that key.
    - The three collaborators ([statuses], [toidentifier], [depd]) are
      parameters: the registry table, the identifier function, and a log of
      the messages the module hands to [deprecate]. Which of them [depd]
      prints (it prints a message once for each call site) is not modelled. *)

From Stdlib Require Import Ascii.
From stdpp Require Import base numbers option list strings gmap pretty.

Local Open Scope string_scope.
Local Open Scope Z_scope.

(** ** Values *)

Inductive num : Set :=
| Int (z : Z)
| NaN
| PosInf
| NegInf.

Definition loc : Set := positive.

Inductive value : Set :=
| VUndefined
| VNull
| VBool (b : bool)
| VNum (n : num)
| VStr (s : string)
| VObj (l : loc)
| VFun (l : loc)
| VSymbol (l : loc)
| VBigInt (z : Z).

#[global] Instance num_eq_dec : EqDecision num.
Proof. solve_decision. Defined.

#[global] Instance value_eq_dec : EqDecision value.
Proof. solve_decision. Defined.

(** [typeof v] *)
Definition typeof (v : value) : string :=
  match v with
  | VUndefined => "undefined"
  | VNull => "object"
  | VBool _ => "boolean"
  | VNum _ => "number"
  | VStr _ => "string"
  | VObj _ => "object"
  | VFun _ => "function"
  | VSymbol _ => "symbol"
  | VBigInt _ => "bigint"
  end.

(** ToBoolean: what [!v], [a || b] and [if (v)] test. *)
Definition truthy (v : value) : bool :=
  match v with
  | VUndefined | VNull => false
  | VBool b => b
  | VNum (Int z) => negb (z =? 0)
  | VNum NaN => false
  | VNum _ => true
  | VStr s => negb (String.eqb s "")
  | VObj _ | VFun _ | VSymbol _ => true
  | VBigInt z => negb (z =? 0)
  end.

(** [a || b] *)
Definition js_or (a b : value) : value := if truthy a then a else b.

(** [a === b]: NaN differs from itself. *)
Definition strict_eq (a b : value) : bool :=
  match a, b with
  | VNum NaN, _ | _, VNum NaN => false
  | _, _ => bool_decide (a = b)
  end.

(** [n < k] and [n >= k] for an integer literal [k]. *)
Definition num_lt (n : num) (k : Z) : bool :=
  match n with
  | Int z => z <? k
  | NaN => false
  | PosInf => false
  | NegInf => true
  end.

Definition num_ge (n : num) (k : Z) : bool :=
  match n with
  | Int z => k <=? z
  | NaN => false
  | PosInf => true
  | NegInf => false
  end.

(** [String(n)] *)
Definition String_of_num (n : num) : string :=
  match n with
  | Int z => pretty z
  | NaN => "NaN"
  | PosInf => "Infinity"
  | NegInf => "-Infinity"
  end.

(** [s.charAt(0)] *)
Definition charAt0 (s : string) : string :=
  match s with
  | EmptyString => ""
  | String a _ => String a ""
  end.

Definition digit_of_ascii (a : ascii) : option Z :=
  let n := Z.of_nat (nat_of_ascii a) in
  if (48 <=? n) && (n <=? 57) then Some (n - 48) else None.

Fixpoint digits_value (acc : Z) (s : string) : option Z :=
  match s with
  | EmptyString => Some acc
  | String a s' =>
      match digit_of_ascii a with
      | Some d => digits_value (10 * acc + d) s'
      | None => None
      end
  end.

(** [Number(s)], on the strings the module applies it to: an optional minus
    sign followed by decimal digits is that integer, every other text that
    starts with a letter is NaN. *)
Definition Number_of_string (s : string) : num :=
  match s with
  | EmptyString => Int 0
  | String "-"%char (String a r) =>
      match digits_value 0 (String a r) with
      | Some z => Int (- z)
      | None => NaN
      end
  | _ =>
      match digits_value 0 s with
      | Some z => Int z
      | None => NaN
      end
  end.

(** Get the code class of a status code. *)
Definition codeClass (status : num) : num :=
  Number_of_string (charAt0 (String_of_num status) +:+ "00").

(** ** Classes, objects and the heap *)

Inductive ctor_kind : Set := ClientError | ServerError.

(** A synthesized concrete class: what [createClientErrorConstructor] and
    [createServerErrorConstructor] close over. *)
Record ctor : Set := Ctor {
  kind : ctor_kind;
  code : Z;
  className : string
}.

(** The class of an object, that is its prototype chain: plain objects,
    [Error], the abstract [HttpError], a synthesized class, or any other class
    (identified by a number) extending one of these. *)
Inductive cls : Set :=
| CObject
| CError
| CHttpError
| CCtor (k : ctor)
| CUser (n : nat) (parent : cls).

#[global] Instance ctor_kind_eq_dec : EqDecision ctor_kind.
Proof. solve_decision. Defined.

#[global] Instance ctor_eq_dec : EqDecision ctor.
Proof. solve_decision. Defined.

#[global] Instance cls_eq_dec : EqDecision cls.
Proof. solve_decision. Defined.

Fixpoint ancestors (c : cls) : list cls :=
  c :: match c with
       | CObject => []
       | CError => [CObject]
       | CHttpError => [CError; CObject]
       | CCtor _ => [CHttpError; CError; CObject]
       | CUser _ parent => ancestors parent
       end.

Record object : Set := Obj {
  proto : cls;
  fields : gmap string value
}.

(** [o instanceof C] *)
Definition instanceof (o : object) (C : cls) : bool :=
  bool_decide (C ∈ ancestors (proto o)).

(** [o[key]]: an own property, else what [Error.prototype] provides. *)
Definition get (o : object) (key : string) : value :=
  match fields o !! key with
  | Some v => v
  | None =>
      if instanceof o CError then
        if String.eqb key "message" then VStr ""
        else if String.eqb key "name" then VStr "Error"
        else VUndefined
      else VUndefined
  end.

(** The heap, and the messages handed to [deprecate] so far. *)
Record world : Type := World {
  heap : gmap loc object;
  advisories : list string
}.

Definition obj_at (w : world) (l : loc) : object :=
  default (Obj CObject ∅) (heap w !! l).

(** [l[key] = v] *)
Definition set_field (l : loc) (key : string) (v : value) (w : world) : world :=
  let o := obj_at w l in
  World (<[l := Obj (proto o) (<[key := v]> (fields o))]> (heap w)) (advisories w).

(** [deprecate(message)]: the call is recorded with its message. What [depd]
    does with it (print it, once for each call site) is left to [depd]. *)
Definition deprecate (message : string) (w : world) : world :=
  World (heap w) (advisories w ++ [message]).

Inductive exn : Set := TypeError (message : string).

Inductive result (A : Type) : Type :=
| Ok (a : A) (w : world)
| Throw (e : exn).

Arguments Ok {A} a w.
Arguments Throw {A} e.

Definition bind {A B : Type} (r : result A) (f : A → world → result B) : result B :=
  match r with
  | Ok a w => f a w
  | Throw e => Throw e
  end.

Notation "' ( x , w ) <- r ;; k" := (bind r (fun x w => k))
  (at level 100, r at next level, x name, w name, right associativity).

(** [new Error(message)]: [message] becomes an own property unless it is
    [undefined]. *)
Definition new_object (C : cls) (message : option string) (w : world) : result loc :=
  let l := fresh (dom (heap w)) in
  let own : gmap string value :=
    match message with
    | Some m => {[ "message" := VStr m ]}
    | None => ∅
    end in
  Ok l (World (<[l := Obj C own]> (heap w)) (advisories w)).

(** [class HttpError extends Error]: the constructor, run with [new.target]. *)
Definition HttpError_constructor (new_target : cls) (status : value)
    (message : option string) (w : world) : result loc :=
  if bool_decide (new_target = CHttpError) then
    Throw (TypeError "cannot construct abstract class")
  else
    '(this, w) <- new_object new_target message w ;;
    let w := set_field this "statusCode" status w in
    let w := set_field this "status" status w in
    Ok this w.

(** [name.slice(-5)] *)
Definition slice_last5 (name : string) : string :=
  String.substring (String.length name - 5)%nat 5%nat name.

(** Get a class name from a name identifier. *)
Definition toClassName (name : string) : string :=
  if String.eqb (slice_last5 name) "Error" then name else name +:+ "Error".

(** ** The module, over its collaborators *)

(** The working variables of [createError]; [props] starts as the literal
    [{}], which nothing else can refer to, and otherwise holds an argument. *)
Inductive bag : Set :=
| BagLiteral
| BagArg (v : value).

Record vars : Set := Vars {
  err : option loc;
  msg : option string;
  status : value;
  props : bag
}.

(** The string a value of type string is. *)
Definition string_of (v : value) : option string :=
  match v with
  | VStr s => Some s
  | _ => None
  end.

(** The location and the object a value of type object refers to. *)
Definition loc_of (v : value) : option loc :=
  match v with
  | VObj l => Some l
  | _ => None
  end.

Definition object_of (w : world) (v : value) : object :=
  match v with
  | VObj l => obj_at w l
  | _ => Obj CObject ∅
  end.

(** [v instanceof C]: false for [null] and for every value that is not an
    object. *)
Definition value_instanceof (w : world) (v : value) (C : cls) : bool :=
  match v with
  | VObj l => instanceof (obj_at w l) C
  | _ => false
  end.

(** [err[key] = val] in the merge loop, on the own properties of [err]. The
    key [__proto__] is the accessor every object inherits from
    [Object.prototype]: assigning to it creates no own property. Its setter
    ignores a value that is neither an object nor [null], and otherwise
    replaces the prototype of [err]; that replacement is not represented, a
    class being fixed here, so the theorems that rest on the class of the
    returned error, or on the keys a bag gives it, are stated for bags that
    do not own this key. *)
Definition assign (key : string) (val : value) (own : gmap string value)
  : gmap string value :=
  if bool_decide (key = "__proto__") then own else <[key := val]> own.

(** The body of [for (const key in props) ...], on the own properties: the
    order of enumeration does not matter, the keys being distinct. *)
Definition merge_fields (src dst : gmap string value) : gmap string value :=
  map_fold (fun key val dst =>
    if bool_decide (key ≠ "status") && bool_decide (key ≠ "statusCode")
    then assign key val dst
    else dst) dst src.

(** The loop of lines 106 to 110. [null] and the literal [{}] have no key;
    the bag is never the error itself, which is an [Error]. *)
Definition merge_props (l : loc) (props : bag) (w : world) : world :=
  match props with
  | BagArg (VObj b) =>
      let o := obj_at w l in
      World (<[l := Obj (proto o) (merge_fields (fields (obj_at w b)) (fields o))]> (heap w))
            (advisories w)
  | _ => w
  end.

Section HttpErrors.

(** [statuses.message]: the reason phrase of each supported code;
    [statuses.codes] are its keys. *)
Variable message : gmap Z string.

(** [toidentifier] *)
Variable toIdentifier : string → string.

Definition codes : list Z := (map_to_list message).*1.

(** [statuses.message[status]] *)
Definition statuses_message (status : num) : option string :=
  match status with
  | Int z => message !! z
  | _ => None
  end.

(** Create a constructor for a client error. *)
Definition createClientErrorConstructor (name : string) (code : Z) : ctor :=
  Ctor ClientError code (toClassName name).

(** Create a constructor for a server error. *)
Definition createServerErrorConstructor (name : string) (code : Z) : ctor :=
  Ctor ServerError code (toClassName name).

(** [new C(message)] for a synthesized class [C]; [message] is a string, or
    absent ([undefined] or [null]), in which case
    [message != null ? message : statuses.message[code]] is the reason
    phrase. *)
Definition construct (C : ctor) (message : option string) (w : world) : result loc :=
  let msg := match message with
             | Some m => Some m
             | None => statuses_message (Int (code C))
             end in
  '(this, w) <- HttpError_constructor (CCtor C) (VNum (Int (code C))) msg w ;;
  let w := set_field this "name" (VStr (className C)) w in
  let w := set_field this "expose"
             (VBool match kind C with ClientError => true | ServerError => false end) w in
  Ok this w.

(** [switch (codeClass(code))] *)
Definition switch_codeClass (name : string) (code : Z) : option ctor :=
  match codeClass (Int code) with
  | Int 400 => Some (createClientErrorConstructor name code)
  | Int 500 => Some (createServerErrorConstructor name code)
  | _ => None
  end.

(** The callback of [codes.forEach]. The codes are the keys of [message], so
    the phrase is there. *)
Definition forEachCode (exports : gmap string ctor) (code : Z) : gmap string ctor :=
  match message !! code with
  | None => exports
  | Some phrase =>
      let name := toIdentifier phrase in
      let CodeError := switch_codeClass name code in
      match CodeError with
      | Some C => <[name := C]> (<[String_of_num (Int code) := C]> exports)
      | None => exports
      end
  end.

(** Populate the exports object with constructors for every error class. *)
Definition populateConstructorExports (exports : gmap string ctor) (codes : list Z)
  : gmap string ctor :=
  foldl forEachCode exports codes.

(** The constructors on [module.exports], which is [createError] itself. The
    two other named exports, [HttpError] and [isHttpError], are the
    definitions of this file, and the own properties every function has are
    left out: the factory only looks up keys of the form [String(number)]. *)
Definition exports : gmap string ctor := populateConstructorExports ∅ codes.

Definition init_vars : vars := Vars None None (VNum (Int 500)) BagLiteral.

(** One turn of the loop over [arguments]. *)
Definition scan_arg (w : world) (i : nat) (arg : value) (v : vars) : exn + vars :=
  let type := typeof arg in
  if String.eqb type "object" && value_instanceof w arg CError then
    let e := object_of w arg in
    inr (Vars (loc_of arg) (msg v)
           (js_or (get e "status") (js_or (get e "statusCode") (status v)))
           (props v))
  else if String.eqb type "number" && bool_decide (i = 0%nat) then
    inr (Vars (err v) (msg v) arg (props v))
  else if String.eqb type "string" then
    inr (Vars (err v) (string_of arg) (status v) (props v))
  else if String.eqb type "object" then
    inr (Vars (err v) (msg v) (status v) (BagArg arg))
  else
    inl (TypeError ("argument #" +:+ pretty (i + 1)%nat +:+ " unsupported type " +:+ type)).

Fixpoint scan (w : world) (i : nat) (args : list value) (v : vars) : exn + vars :=
  match args with
  | [] => inr v
  | arg :: rest =>
      match scan_arg w i arg v with
      | inl e => inl e
      | inr v' => scan w (S i) rest v'
      end
  end.

(** [typeof status === 'number' && (status < 400 || status >= 600)] *)
Definition non_error_status (status : value) : bool :=
  match status with
  | VNum n => num_lt n 400 || num_ge n 600
  | _ => false
  end.

(** The status after lines 84 to 87. *)
Definition resolve_status (status : value) : num :=
  match status with
  | VNum n =>
      if negb (truthy (from_option VStr VUndefined (statuses_message n)))
         && (num_lt n 400 || num_ge n 600)
      then Int 500 else n
  | _ => Int 500
  end.

(** [createError[status] || createError[codeClass(status)]] *)
Definition resolve_ctor (status : num) : option ctor :=
  match exports !! String_of_num status with
  | Some C => Some C
  | None => exports !! String_of_num (codeClass status)
  end.

(** [!HttpError || !(err instanceof HttpError) || err.status !== status] *)
Definition generic (HttpError : option ctor) (status : num) (e : object) : bool :=
  match HttpError with
  | None => true
  | Some C => negb (instanceof e (CCtor C))
              || negb (strict_eq (get e "status") (VNum status))
  end.

(** Lines 100 to 104. *)
Definition decorate (HttpError : option ctor) (l : loc) (status : num) (w : world) : world :=
  if generic HttpError status (obj_at w l) then
    let w := set_field l "expose" (VBool (num_lt status 500)) w in
    let w := set_field l "statusCode" (VNum status) w in
    set_field l "status" (VNum status) w
  else w.

(** [new Error(msg || statuses.message[status])] *)
Definition new_Error (msg : option string) (status : num) (w : world) : result loc :=
  new_object CError
    (match msg with
     | Some m => if truthy (VStr m) then Some m else statuses_message status
     | None => statuses_message status
     end) w.

(** Lines 80 to 112: what [createError] does once the arguments are read. *)
Definition build (v : vars) (w : world) : result loc :=
  let w := if non_error_status (status v)
           then deprecate "non-error status code; use only 4xx or 5xx status codes" w
           else w in
  let status := resolve_status (status v) in
  let HttpError := resolve_ctor status in
  '(e, w) <- match err v with
             | Some e => Ok e w
             | None =>
                 match HttpError with
                 | Some C => construct C (msg v) w
                 | None => new_Error (msg v) status w
                 end
             end ;;
  let w := decorate HttpError e status w in
  let w := merge_props e (props v) w in
  Ok e w.

(** Create a new HTTP Error. *)
Definition createError (args : list value) (w : world) : result loc :=
  match scan w 0 args init_vars with
  | inl e => Throw e
  | inr v => build v w
  end.

(** The function [createIsHttpErrorFunction(HttpError)] returns. *)
Definition isHttpError (val : value) (w : world) : bool :=
  if negb (truthy val) || negb (String.eqb (typeof val) "object") then false
  else if value_instanceof w val CHttpError then true
  else
    value_instanceof w val CError
    && String.eqb (typeof (get (object_of w val) "expose")) "boolean"
    && String.eqb (typeof (get (object_of w val) "statusCode")) "number"
    && strict_eq (get (object_of w val) "status") (get (object_of w val) "statusCode").

End HttpErrors.

(** ** The collaborators as shipped *)

(** Modelled from the spec: the status registry collaborator, which is not
    part of the sources. The table is the one of the [statuses] package. *)
Definition statuses_table : list (Z * string) :=
  [ (100, "Continue"); (101, "Switching Protocols"); (102, "Processing");
    (103, "Early Hints"); (200, "OK"); (201, "Created"); (202, "Accepted");
    (203, "Non-Authoritative Information"); (204, "No Content");
    (205, "Reset Content"); (206, "Partial Content"); (207, "Multi-Status");
    (208, "Already Reported"); (226, "IM Used"); (300, "Multiple Choices");
    (301, "Moved Permanently"); (302, "Found"); (303, "See Other");
    (304, "Not Modified"); (305, "Use Proxy"); (307, "Temporary Redirect");
    (308, "Permanent Redirect"); (400, "Bad Request"); (401, "Unauthorized");
    (402, "Payment Required"); (403, "Forbidden"); (404, "Not Found");
    (405, "Method Not Allowed"); (406, "Not Acceptable");
    (407, "Proxy Authentication Required"); (408, "Request Timeout");
    (409, "Conflict"); (410, "Gone"); (411, "Length Required");
    (412, "Precondition Failed"); (413, "Payload Too Large");
    (414, "URI Too Long"); (415, "Unsupported Media Type");
    (416, "Range Not Satisfiable"); (417, "Expectation Failed");
    (418, "I'm a Teapot"); (421, "Misdirected Request");
    (422, "Unprocessable Entity"); (423, "Locked"); (424, "Failed Dependency");
    (425, "Too Early"); (426, "Upgrade Required"); (428, "Precondition Required");
    (429, "Too Many Requests"); (431, "Request Header Fields Too Large");
    (451, "Unavailable For Legal Reasons"); (500, "Internal Server Error");
    (501, "Not Implemented"); (502, "Bad Gateway"); (503, "Service Unavailable");
    (504, "Gateway Timeout"); (505, "HTTP Version Not Supported");
    (506, "Variant Also Negotiates"); (507, "Insufficient Storage");
    (508, "Loop Detected"); (509, "Bandwidth Limit Exceeded");
    (510, "Not Extended"); (511, "Network Authentication Required") ].

Definition statuses : gmap Z string := list_to_map statuses_table.

Definition is_word_char (a : ascii) : bool :=
  let n := nat_of_ascii a in
  ((48 <=? n) && (n <=? 57) || (65 <=? n) && (n <=? 90)
   || (97 <=? n) && (n <=? 122) || (n =? 95) || (n =? 32))%nat.

Definition upper (a : ascii) : ascii :=
  let n := nat_of_ascii a in
  if ((97 <=? n) && (n <=? 122))%nat then ascii_of_nat (n - 32) else a.

(** Split on spaces, capitalise each token, join. *)
Fixpoint capitalise_tokens (start : bool) (s : string) : string :=
  match s with
  | EmptyString => EmptyString
  | String a r =>
      if Ascii.eqb a " " then capitalise_tokens true r
      else String (if start then upper a else a) (capitalise_tokens false r)
  end.

Fixpoint keep_word_chars (s : string) : string :=
  match s with
  | EmptyString => EmptyString
  | String a r =>
      if is_word_char a then String a (keep_word_chars r) else keep_word_chars r
  end.

(** Modelled from the spec: the identifier-sanitizer collaborator, which is
    not part of the sources ("Not Found" becomes "NotFound"). *)
Definition toidentifier (str : string) : string :=
  keep_word_chars (capitalise_tokens true str).


(** ** Specification predicates *)

(** An argument fits one of the four roles: an object (error or bag), a
    string, or a number in first position. *)
Definition supported (i : nat) (arg : value) : bool :=
  String.eqb (typeof arg) "object"
  || String.eqb (typeof arg) "string"
  || (String.eqb (typeof arg) "number" && bool_decide (i = 0%nat)).

(** The text of the type error for argument [i] (counted from 0). *)
Definition unsupported_message (i : nat) (arg : value) : string :=
  "argument #" +:+ pretty (i + 1)%nat +:+ " unsupported type " +:+ typeof arg.

(** An argument in the role of error object. *)
Definition error_loc (w : world) (v : value) : option loc :=
  match v with
  | VObj l => if instanceof (obj_at w l) CError then Some l else None
  | _ => None
  end.

(** An argument in the role of property bag. *)
Definition bag_value (w : world) (v : value) : option value :=
  match v with
  | VObj l => if instanceof (obj_at w l) CError then None else Some v
  | VNull => Some v
  | _ => None
  end.

(** The last error object among the arguments, if any. *)
Definition last_error (w : world) (args : list value) : option loc :=
  last (omap (error_loc w) args).

(** The last property bag among the arguments, if any. *)
Definition last_bag (w : world) (args : list value) : option value :=
  last (omap (bag_value w) args).

(** The own properties of the last property bag. *)
Definition last_bag_fields (w : world) (args : list value) : gmap string value :=
  match last_bag w args with
  | Some (VObj b) => fields (obj_at w b)
  | _ => ∅
  end.

(** The location a call returned. *)
Definition result_loc (r : result loc) : option loc :=
  match r with
  | Ok l _ => Some l
  | Throw _ => None
  end.

(** [o.status === o.statusCode] *)
Definition status_eq_statusCode (o : object) : bool :=
  strict_eq (get o "status") (get o "statusCode").

(** Every instance of [HttpError] in the heap has equal [status] and
    [statusCode]. *)
Definition status_invariant (w : world) : Prop :=
  ∀ l o, heap w !! l = Some o → instanceof o CHttpError = true →
         status_eq_statusCode o = true.

(** What [decorate] makes of the object it is run on. *)
Definition decorate_obj (HttpError : option ctor) (status : num) (e : object) : object :=
  if generic HttpError status e then
    Obj (proto e)
      (<["status" := VNum status]>
         (<["statusCode" := VNum status]>
            (<["expose" := VBool (num_lt status 500)]> (fields e))))
  else e.

(** The own properties the merge loop enumerates. *)
Definition bag_fields (w : world) (props : bag) : gmap string value :=
  match props with
  | BagArg (VObj b) => fields (obj_at w b)
  | _ => ∅
  end.

Definition merge_obj (src : gmap string value) (e : object) : object :=
  Obj (proto e) (merge_fields src (fields e)).

(** The instance [new C(msg)] builds, given the reason phrase of its code. *)
Definition constructed (phrase : option string) (C : ctor) (msg : option string) : object :=
  let own : gmap string value :=
    match (match msg with Some m => Some m | None => phrase end) with
    | Some m => {[ "message" := VStr m ]}
    | None => ∅
    end in
  Obj (CCtor C)
    (<["expose" := VBool match kind C with ClientError => true | ServerError => false end]>
       (<["name" := VStr (className C)]>
          (<["status" := VNum (Int (code C))]>
             (<["statusCode" := VNum (Int (code C))]> own)))).

(** Only code [c] of the registry writes [key] on the exports: no other code
    has [key] as its identifier or as its numeral. *)
Definition key_owned (message : gmap Z string) (toIdentifier : string → string)
    (c : Z) (key : string) : Prop :=
  map_Forall (fun (c' : Z) phrase' =>
                c' ≠ c → toIdentifier phrase' ≠ key ∧ pretty c' ≠ key) message.

(** The condition of lines 84 and 85: the status is not a number, or it has
    no reason phrase and lies outside [400, 599]. *)
Definition falls_back (message : gmap Z string) (status : value) : bool :=
  match status with
  | VNum n =>
      negb (truthy (from_option VStr VUndefined (statuses_message message n)))
      && (num_lt n 400 || num_ge n 600)
  | _ => true
  end.

(** A field of the error a call returned. *)
Definition result_get (r : result loc) (key : string) : option value :=
  match r with
  | Ok l w => Some (get (obj_at w l) key)
  | Throw _ => None
  end.

(** The object [new Error(msg || statuses.message[status])] builds. *)
Definition new_error_obj (message : gmap Z string) (msg : option string)
    (status : num) : object :=
  Obj CError
    match (match msg with
           | Some m => if truthy (VStr m) then Some m
                       else statuses_message message status
           | None => statuses_message message status
           end) with
    | Some m => {[ "message" := VStr m ]}
    | None => ∅
    end.

(** The instance the factory creates when it is given no error object. *)
Definition fresh_instance (message : gmap Z string) (toIdentifier : string → string)
    (v : vars) : object :=
  let status := resolve_status message (status v) in
  match resolve_ctor message toIdentifier status with
  | Some C => constructed (message !! code C) C (msg v)
  | None => new_error_obj message (msg v) status
  end.

(** Where the error the factory returns lives, and what is there when the
    decoration starts. *)
Definition target (v : vars) (w : world) : loc :=
  match err v with
  | Some e => e
  | None => fresh (dom (heap w))
  end.

Definition start_object (message : gmap Z string) (toIdentifier : string → string)
    (v : vars) (w : world) : object :=
  match err v with
  | Some e => obj_at w e
  | None => fresh_instance message toIdentifier v
  end.

(** The error the factory returns, as an object. *)
Definition final_object (message : gmap Z string) (toIdentifier : string → string)
    (v : vars) (w : world) : object :=
  let status := resolve_status message (status v) in
  let HttpError := resolve_ctor message toIdentifier status in
  let decorated := decorate_obj HttpError status (start_object message toIdentifier v w) in
  let src : gmap string value :=
    match props v with
    | BagArg (VObj b) =>
        if bool_decide (b = target v w) then fields decorated else fields (obj_at w b)
    | _ => ∅
    end in
  merge_obj src decorated.

(** A field the error a call returned owns. *)
Definition result_field (r : result loc) (key : string) : option value :=
  match r with
  | Ok l w => fields (obj_at w l) !! key
  | Throw _ => None
  end.

(** A world where the object at [b] is replaced by [o]. *)
Definition with_object (b : loc) (o : object) (w : world) : world :=
  World (<[b := o]> (heap w)) (advisories w).

(** Whether [isHttpError] recognizes the error a call returned. *)
Definition result_isHttpError (r : result loc) : option bool :=
  match r with
  | Ok l w => Some (isHttpError (VObj l) w)
  | Throw _ => None
  end.

(** [o.status === o.statusCode] on the error a call returned. *)
Definition result_status_eq (r : result loc) : option bool :=
  match r with
  | Ok l w => Some (status_eq_statusCode (obj_at w l))
  | Throw _ => None
  end.

(** Passing the error a call returned back through the factory, alone. *)
Definition again (message : gmap Z string) (toIdentifier : string → string)
    (r : result loc) : result loc :=
  match r with
  | Ok l w => createError message toIdentifier [VObj l] w
  | Throw e => Throw e
  end.

(** The last string among the arguments, if any. *)
Definition last_string (args : list value) : option string :=
  last (omap string_of args).

(** The working status of a call that holds no error object: the first
    argument when it is a number, else the initial 500. *)
Definition first_status (args : list value) : value :=
  match args with
  | VNum n :: _ => VNum n
  | _ => VNum (Int 500)
  end.

(** The four roles an argument can take. *)
Inductive role : Set := RError | RStatus | RMessage | RBag.

#[global] Instance role_eq_dec : EqDecision role.
Proof. solve_decision. Defined.

(** The role of an argument by its runtime type, whatever its position. *)
Definition role_of (w : world) (arg : value) : option role :=
  match arg with
  | VObj l => if instanceof (obj_at w l) CError then Some RError else Some RBag
  | VNull => Some RBag
  | VStr _ => Some RMessage
  | VNum _ => Some RStatus
  | _ => None
  end.

(** The error [o] is an instance of the class found for the status. *)
Definition instance_of_found (HttpError : option ctor) (o : object) : bool :=
  match HttpError with
  | Some C => instanceof o (CCtor C)
  | None => false
  end.

(** The errors lines 100 to 104 leave alone: a class was found for the
    status, the error is an instance of it, and its [status] is that status
    already. *)
Definition settled (HttpError : option ctor) (status : num) (o : object) : bool :=
  instance_of_found HttpError o && strict_eq (get o "status") (VNum status).

(** The own field [key] of the error a call returns, given the class found,
    the resolved status, the own fields [bag] of the last property bag and
    the error [o] the decoration starts from. [status] is the resolved
    status; [statusCode] is set to it unless the error is settled; any other
    key comes from the bag when the bag has it; [expose] is otherwise set to
    [status < 500] unless the error is settled; every other field is as it
    was. *)
Definition decorated_field (HttpError : option ctor) (status : num)
    (bag : gmap string value) (o : object) (key : string) : option value :=
  if String.eqb key "status" then Some (VNum status)
  else if String.eqb key "statusCode" then
    if settled HttpError status o then fields o !! "statusCode"
    else Some (VNum status)
  else
    match bag !! key with
    | Some val => Some val
    | None =>
        if String.eqb key "expose" && negb (settled HttpError status o)
        then Some (VBool (num_lt status 500))
        else fields o !! key
    end.

(** An instance of the class [C] that carries the error code [c] and the
    message [m]: its prototype is that of [C], so it is an [HttpError] and an
    [Error], and its fields are those the constructor of [C] sets. *)
Definition instance_of_code (C : ctor) (c : Z) (m : string) (o : object) : Prop :=
  proto o = CCtor C
  ∧ instanceof o CHttpError = true
  ∧ instanceof o CError = true
  ∧ get o "status" = VNum (Int c)
  ∧ get o "statusCode" = VNum (Int c)
  ∧ get o "expose" = VBool (c <? 500)
  ∧ get o "message" = VStr m
  ∧ get o "name" = VStr (className C).

(** ** Sample heaps *)

Definition empty_world : world := World ∅ [].

(** A heap with one plain [Error] whose [status] is 403. *)
Definition world_with_error : world :=
  World {[ 1%positive := Obj CError {[ "message" := VStr "denied";
                                        "status" := VNum (Int 403) ]} ]} [].


(** A heap with two plain objects, to be used as property bags. *)
Definition world_two_bags : world :=
  World {[ 1%positive := Obj CObject {[ "code" := VStr "X"; "status" := VNum (Int 403) ]};
           2%positive := Obj CObject {[ "detail" := VStr "Y" ]} ]} [].

(** A heap with a plain [Error] and a bag that sets [expose] to a string. *)
Definition world_expose_string : world :=
  World {[ 1%positive := Obj CError {[ "message" := VStr "boom" ]};
           2%positive := Obj CObject {[ "expose" := VStr "no" ]} ]} [].

(** A heap with an instance of the class of 404 whose [statusCode] was
    changed to 500 after its construction. *)
Definition world_tampered : world :=
  World {[ 1%positive :=
             Obj (CCtor (Ctor ClientError 404 "NotFoundError"))
               {[ "message" := VStr "Not Found"; "name" := VStr "NotFoundError";
                  "expose" := VBool true; "status" := VNum (Int 404);
                  "statusCode" := VNum (Int 500) ]} ]} [].

(** A heap with a plain [Error] and a bag that sets [expose] to true. *)
Definition world_expose_true : world :=
  World {[ 1%positive := Obj CError {[ "message" := VStr "boom" ]};
           2%positive := Obj CObject {[ "expose" := VBool true ]} ]} [].

(** A heap with the instance of the class of 404 whose [statusCode] was
    changed, a plain [Error] whose [status] is 403, and a bag. *)
Definition world_mixed : world :=
  World {[ 1%positive :=
             Obj (CCtor (Ctor ClientError 404 "NotFoundError"))
               {[ "message" := VStr "Not Found"; "name" := VStr "NotFoundError";
                  "expose" := VBool true; "status" := VNum (Int 404);
                  "statusCode" := VNum (Int 500) ]};
           2%positive := Obj CError {[ "message" := VStr "denied";
                                        "status" := VNum (Int 403) ]};
           3%positive := Obj CObject {[ "code" := VStr "X";
                                         "expose" := VBool false;
                                         "status" := VNum (Int 1) ]} ]} [].

(** ** Examples *)

Example codeClass_404 : codeClass (Int 404) = Int 400.
Proof. reflexivity. Qed.

Example codeClass_503 : codeClass (Int 503) = Int 500.
Proof. reflexivity. Qed.

Example codeClass_neg : codeClass (Int (-7)) = Int 0.
Proof. reflexivity. Qed.

Example codeClass_NaN : codeClass NaN = NaN.
Proof. reflexivity. Qed.

Example toClassName_NotFound : toClassName "NotFound" = "NotFoundError".
Proof. reflexivity. Qed.

Example toClassName_InternalServerError :
  toClassName "InternalServerError" = "InternalServerError".
Proof. reflexivity. Qed.

Example toClassName_short : toClassName "Gone" = "GoneError".
Proof. reflexivity. Qed.

Example toidentifier_NotFound : toidentifier "Not Found" = "NotFound".
Proof. reflexivity. Qed.

Example toidentifier_Teapot : toidentifier "I'm a Teapot" = "ImATeapot".
Proof. reflexivity. Qed.

Example toidentifier_MultiStatus : toidentifier "Multi-Status" = "MultiStatus".
Proof. reflexivity. Qed.


(** The calls of the specification's examples, run on the registry. *)
Example createError_404 :
  createError statuses toidentifier [VNum (Int 404)] empty_world
  = Ok 1%positive
      (World {[ 1%positive :=
                  Obj (CCtor (Ctor ClientError 404 "NotFoundError"))
                    {[ "message" := VStr "Not Found"; "statusCode" := VNum (Int 404);
                       "status" := VNum (Int 404); "name" := VStr "NotFoundError";
                       "expose" := VBool true ]} ]} []).
Proof. vm_compute. reflexivity. Qed.

Example createError_500_boom :
  createError statuses toidentifier [VNum (Int 500); VStr "boom"] empty_world
  = Ok 1%positive
      (World {[ 1%positive :=
                  Obj (CCtor (Ctor ServerError 500 "InternalServerError"))
                    {[ "message" := VStr "boom"; "statusCode" := VNum (Int 500);
                       "status" := VNum (Int 500); "name" := VStr "InternalServerError";
                       "expose" := VBool false ]} ]} []).
Proof. vm_compute. reflexivity. Qed.

Example createError_399 :
  result_get (createError statuses toidentifier [VNum (Int 399)] empty_world) "status"
  = Some (VNum (Int 500)).
Proof. vm_compute. reflexivity. Qed.

Example createError_700 :
  result_get (createError statuses toidentifier [VNum (Int 700)] empty_world) "status"
  = Some (VNum (Int 500)).
Proof. vm_compute. reflexivity. Qed.

(** An unregistered code of the range keeps its status and takes the class of
    its hundred. *)
Example createError_450 :
  createError statuses toidentifier [VNum (Int 450)] empty_world
  = Ok 1%positive
      (World {[ 1%positive :=
                  Obj (CCtor (Ctor ClientError 400 "BadRequestError"))
                    {[ "message" := VStr "Bad Request"; "statusCode" := VNum (Int 450);
                       "status" := VNum (Int 450); "name" := VStr "BadRequestError";
                       "expose" := VBool true ]} ]} []).
Proof. vm_compute. reflexivity. Qed.

(** NaN is a number that is neither below 400 nor from 600 on: lines 80 to
    87 let it through, and the error returned is not recognized. *)
Example createError_NaN :
  result_get (createError statuses toidentifier [VNum NaN] empty_world) "status"
  = Some (VNum NaN)
  ∧ result_isHttpError (createError statuses toidentifier [VNum NaN] empty_world)
    = Some false.
Proof. split; vm_compute; reflexivity. Qed.

(** ** Objects and fields *)

Lemma obj_at_set_field_eq l key v w :
  obj_at (set_field l key v w) l
  = Obj (proto (obj_at w l)) (<[key := v]> (fields (obj_at w l))).
Proof. unfold obj_at, set_field; simpl. by rewrite lookup_insert_eq. Qed.

Lemma obj_at_set_field_ne l l' key v w :
  l ≠ l' → obj_at (set_field l key v w) l' = obj_at w l'.
Proof. intros Hne. unfold obj_at, set_field; simpl. by rewrite lookup_insert_ne. Qed.

Lemma heap_set_field_ne l l' key v w :
  l ≠ l' → heap (set_field l key v w) !! l' = heap w !! l'.
Proof. intros Hne. unfold set_field; simpl. by rewrite lookup_insert_ne. Qed.

Lemma advisories_set_field l key v w :
  advisories (set_field l key v w) = advisories w.
Proof. reflexivity. Qed.

Lemma dom_set_field l key v w :
  l ∈ dom (heap w) → dom (heap (set_field l key v w)) = dom (heap w).
Proof.
  intros Hl. unfold set_field; simpl. rewrite dom_insert_L.
  by apply subseteq_union_1_L, singleton_subseteq_l.
Qed.

Lemma get_own o key v : fields o !! key = Some v → get o key = v.
Proof. unfold get. by intros ->. Qed.

(** A [status] that reads as a number is an own property. *)
Lemma get_status_num o n :
  get o "status" = VNum n → fields o !! "status" = Some (VNum n).
Proof.
  unfold get. destruct (fields o !! "status") as [v|]; [congruence|].
  simpl. by destruct (instanceof o CError).
Qed.

Lemma strict_eq_true a b : strict_eq a b = true → a = b.
Proof.
  unfold strict_eq. intros H.
  destruct a as [| |?|[]|?|?|?|?|?], b as [| |?|[]|?|?|?|?|?];
    try discriminate H; exact (bool_decide_eq_true_1 _ H).
Qed.

Lemma strict_eq_refl_num n : n ≠ NaN → strict_eq (VNum n) (VNum n) = true.
Proof.
  intros Hn. destruct n; simpl; try done; by apply bool_decide_eq_true.
Qed.

Lemma instanceof_ctor_HttpError o C :
  instanceof o (CCtor C) = true → instanceof o CHttpError = true.
Proof.
  unfold instanceof. rewrite !bool_decide_eq_true.
  induction (proto o) as [| | |k|n parent IH]; simpl;
    rewrite ?elem_of_cons, ?elem_of_nil; intuition discriminate.
Qed.

Lemma instanceof_HttpError_Error o :
  instanceof o CHttpError = true → instanceof o CError = true.
Proof.
  unfold instanceof. rewrite !bool_decide_eq_true.
  induction (proto o) as [| | |k|n parent IH]; simpl;
    rewrite ?elem_of_cons, ?elem_of_nil; intuition discriminate.
Qed.

(** ** The property-bag merge *)

Lemma merge_fields_lookup (src dst : gmap string value) (key : string) :
  merge_fields src dst !! key =
    if bool_decide (key ≠ "status") && bool_decide (key ≠ "statusCode")
       && bool_decide (key ≠ "__proto__")
    then match src !! key with Some v => Some v | None => dst !! key end
    else dst !! key.
Proof.
  unfold merge_fields.
  apply (map_fold_weak_ind (fun r (m : gmap string value) =>
    r !! key = if bool_decide (key ≠ "status") && bool_decide (key ≠ "statusCode")
                  && bool_decide (key ≠ "__proto__")
               then match m !! key with Some v => Some v | None => dst !! key end
               else dst !! key)).
  - rewrite lookup_empty. by destruct (_ && _).
  - intros i x m r Hi IH. unfold assign.
    destruct (decide (i = key)) as [->|Hne].
    + rewrite lookup_insert_eq.
      destruct (bool_decide (key ≠ "status") && bool_decide (key ≠ "statusCode")) eqn:E;
        simpl; [|by rewrite IH].
      destruct (decide (key = "__proto__")) as [Hp|Hp].
      * rewrite (bool_decide_true _ Hp), IH, bool_decide_false by tauto. done.
      * rewrite (bool_decide_false _ Hp), lookup_insert_eq, bool_decide_true by done.
        done.
    + rewrite lookup_insert_ne by done.
      destruct (bool_decide (i ≠ "status") && bool_decide (i ≠ "statusCode"));
        [destruct (bool_decide (i = "__proto__")); [|rewrite lookup_insert_ne by done]|];
        exact IH.
Qed.

Lemma merge_fields_reserved src dst key :
  key = "status" ∨ key = "statusCode" →
  merge_fields src dst !! key = dst !! key.
Proof. rewrite merge_fields_lookup. by intros [-> | ->]. Qed.

Lemma merge_fields_copied src dst key v :
  key ≠ "status" → key ≠ "statusCode" → key ≠ "__proto__" → src !! key = Some v →
  merge_fields src dst !! key = Some v.
Proof.
  intros H1 H2 H3 Hsrc. rewrite merge_fields_lookup, Hsrc.
  by rewrite !bool_decide_true.
Qed.

Lemma merge_fields_kept src dst key :
  src !! key = None → merge_fields src dst !! key = dst !! key.
Proof. intros Hsrc. rewrite merge_fields_lookup, Hsrc. by destruct (_ && _). Qed.

(** The key [__proto__] of a bag never becomes an own property. *)
Lemma merge_fields_proto src dst :
  merge_fields src dst !! "__proto__" = dst !! "__proto__".
Proof. by rewrite merge_fields_lookup. Qed.

(** ** Reading the arguments *)

Section Scan.

Lemma scan_arg_VObj w i l v :
  scan_arg w i (VObj l) v
  = if instanceof (obj_at w l) CError then
      inr (Vars (Some l) (msg v)
             (js_or (get (obj_at w l) "status")
                (js_or (get (obj_at w l) "statusCode") (status v)))
             (props v))
    else inr (Vars (err v) (msg v) (status v) (BagArg (VObj l))).
Proof. unfold scan_arg. simpl. by destruct (instanceof _ _). Qed.

Lemma scan_arg_unsupported w i arg v :
  supported i arg = false →
  scan_arg w i arg v = inl (TypeError (unsupported_message i arg)).
Proof.
  unfold supported, scan_arg, unsupported_message.
  destruct arg; simpl; try done.
  by intros ->.
Qed.

Lemma scan_arg_supported w i arg v :
  supported i arg = true → ∃ v', scan_arg w i arg v = inr v'.
Proof.
  unfold supported, scan_arg.
  destruct arg; simpl; try done; eauto.
  - intros ->. eauto.
  - destruct (instanceof _ _); eauto.
Qed.

Lemma scan_first_unsupported args : ∀ w k v i arg,
  args !! i = Some arg →
  supported (k + i) arg = false →
  (∀ j a, (j < i)%nat → args !! j = Some a → supported (k + j) a = true) →
  scan w k args v = inl (TypeError (unsupported_message (k + i) arg)).
Proof.
  induction args as [|a args IH]; intros w k v i arg Hi Hbad Hbefore; [done|].
  destruct i as [|i]; simpl in *.
  - injection Hi as ->. rewrite Nat.add_0_r in Hbad.
    rewrite (scan_arg_unsupported _ _ _ _ Hbad). by rewrite Nat.add_0_r.
  - destruct (scan_arg_supported w k a v) as [v' ->].
    { specialize (Hbefore 0%nat a). rewrite Nat.add_0_r in Hbefore.
      apply Hbefore; [lia|done]. }
    replace (k + S i)%nat with (S k + i)%nat by lia.
    apply IH; [done|by replace (S k + i)%nat with (k + S i)%nat by lia|].
    intros j a' Hj Ha'. replace (S k + j)%nat with (k + S j)%nat by lia.
    apply Hbefore; [lia|done].
Qed.

Lemma scan_all_supported args : ∀ w k v,
  (∀ j a, args !! j = Some a → supported (k + j) a = true) →
  ∃ v', scan w k args v = inr v'.
Proof.
  induction args as [|a args IH]; intros w k v Hall; simpl; [eauto|].
  destruct (scan_arg_supported w k a v) as [v' ->].
  { specialize (Hall 0%nat a). rewrite Nat.add_0_r in Hall. by apply Hall. }
  apply IH. intros j a' Ha'. replace (S k + j)%nat with (k + S j)%nat by lia.
  by apply Hall.
Qed.

(** Some unsupported argument makes the scan stop at the first one. *)
Lemma scan_some_unsupported args : ∀ w k v i arg,
  args !! i = Some arg →
  supported (k + i) arg = false →
  ∃ j a, (j ≤ i)%nat ∧ args !! j = Some a ∧ supported (k + j) a = false ∧
         scan w k args v = inl (TypeError (unsupported_message (k + j) a)).
Proof.
  induction args as [|a args IH]; intros w k v i arg Hi Hbad; [done|].
  destruct (supported k a) eqn:Ha.
  - destruct i as [|i]; simpl in Hi.
    { injection Hi as ->. rewrite Nat.add_0_r in Hbad. congruence. }
    replace (k + S i)%nat with (S k + i)%nat in Hbad by lia.
    destruct (IH w (S k) (match scan_arg w k a v with inr v' => v' | inl _ => v end)
                 i arg Hi Hbad) as (j & a' & Hj & Ha' & Hbad' & Hscan).
    exists (S j), a'. replace (k + S j)%nat with (S k + j)%nat by lia.
    split; [lia|]. split; [done|]. split; [done|].
    simpl. destruct (scan_arg_supported w k a v Ha) as [v' Hv'].
    rewrite Hv' in *. done.
  - exists 0%nat, a. rewrite Nat.add_0_r.
    split; [lia|]. split; [done|]. split; [done|].
    simpl. by rewrite (scan_arg_unsupported _ _ _ _ Ha).
Qed.

End Scan.

(** ** Unsupported arguments *)

Section Unsupported.

Variable message : gmap Z string.
Variable toIdentifier : string → string.

(** C7. The factory throws a type error naming the 1-based position of an
    argument that fits none of the four roles: of that argument when all
    before it are supported, and in any case of the first such argument of
    the call; a number fits no role at any position but the first; and
    running the constructor of the base class with [new.target] the base
    class itself throws a type error. *)
Theorem unsupported_argument_throws (args : list value) (w : world) :
  (∀ i arg,
     args !! i = Some arg →
     supported i arg = false →
     (∀ j a, (j < i)%nat → args !! j = Some a → supported j a = true) →
     createError message toIdentifier args w
     = Throw (TypeError ("argument #" +:+ pretty (i + 1)%nat
                         +:+ " unsupported type " +:+ typeof arg)))
  ∧ (∀ i arg,
       args !! i = Some arg →
       supported i arg = false →
       ∃ j a, (j ≤ i)%nat ∧ args !! j = Some a ∧ supported j a = false
              ∧ createError message toIdentifier args w
                = Throw (TypeError ("argument #" +:+ pretty (j + 1)%nat
                                    +:+ " unsupported type " +:+ typeof a)))
  ∧ (∀ i n, i ≠ 0%nat → supported i (VNum n) = false)
  ∧ (∀ status msg,
       HttpError_constructor CHttpError status msg w
       = Throw (TypeError "cannot construct abstract class")).
Proof.
  split; [|split; [|split]].
  - intros i arg Hi Hbad Hbefore. unfold createError.
    by rewrite (scan_first_unsupported args w 0 init_vars i arg Hi Hbad Hbefore).
  - intros i arg Hi Hbad.
    destruct (scan_some_unsupported args w 0 init_vars i arg Hi Hbad)
      as (j & a & Hj & Ha & Hbad' & Hscan).
    exists j, a. unfold createError. by rewrite Hscan.
  - intros i n Hi. unfold supported. simpl. by apply bool_decide_eq_false.
  - intros status msg. reflexivity.
Qed.

(** C3, as the code has it. When a numeric argument follows an error-object
    argument, the factory throws a type error for the first unsupported
    argument, which is the number or an argument before it: the status taken
    from the error object is never overwritten by a later number. *)
Theorem number_after_error_throws (args : list value) (w : world)
    (j i : nat) (e : loc) (n : num) :
  args !! j = Some (VObj e) →
  instanceof (obj_at w e) CError = true →
  (j < i)%nat →
  args !! i = Some (VNum n) →
  ∃ k a, (k ≤ i)%nat ∧ args !! k = Some a ∧ supported k a = false ∧
         createError message toIdentifier args w
         = Throw (TypeError ("argument #" +:+ pretty (k + 1)%nat
                             +:+ " unsupported type " +:+ typeof a)).
Proof.
  intros _ _ Hji Hi.
  assert (Hbad : supported (0 + i) (VNum n) = false).
  { unfold supported. simpl. apply bool_decide_eq_false. lia. }
  destruct (scan_some_unsupported args w 0 init_vars i (VNum n) Hi Hbad)
    as (k & a & Hk & Ha & Hbad' & Hscan).
  exists k, a. unfold createError. rewrite Hscan. done.
Qed.

End Unsupported.

Lemma unsupported_argument_throws_witness :
  createError statuses toidentifier [VStr "oops"; VBool true] empty_world
  = Throw (TypeError "argument #2 unsupported type boolean").
Proof.
  apply (proj1 (unsupported_argument_throws statuses toidentifier
                  [VStr "oops"; VBool true] empty_world) 1%nat (VBool true)).
  - reflexivity.
  - reflexivity.
  - intros [|j] a Hj Ha; [|lia]. injection Ha as <-. reflexivity.
Defined.

(** C3 as stated fails: [createError(err, 404)] does not resolve to 404, it
    throws. *)
Lemma later_number_counterexample :
  createError statuses toidentifier [VObj 1%positive; VNum (Int 404)] world_with_error
  = Throw (TypeError "argument #2 unsupported type number").
Proof. vm_compute. reflexivity. Qed.

Lemma number_after_error_throws_witness :
  ∃ k a, (k ≤ 1)%nat ∧ [VObj 1%positive; VNum (Int 404)] !! k = Some a ∧
         supported k a = false ∧
         createError statuses toidentifier [VObj 1%positive; VNum (Int 404)]
           world_with_error
         = Throw (TypeError ("argument #" +:+ pretty (k + 1)%nat
                             +:+ " unsupported type " +:+ typeof a)).
Proof.
  apply (number_after_error_throws statuses toidentifier
           [VObj 1%positive; VNum (Int 404)] world_with_error 0 1 1%positive (Int 404)).
  - reflexivity.
  - vm_compute. reflexivity.
  - lia.
  - reflexivity.
Defined.

(** ** The steps of [build], seen on the object they act on *)

Lemma instanceof_self C f : instanceof (Obj C f) C = true.
Proof.
  unfold instanceof. apply bool_decide_eq_true.
  destruct C; simpl; apply list_elem_of_here.
Qed.

Lemma obj_at_insert l o h a : obj_at (World (<[l := o]> h) a) l = o.
Proof. unfold obj_at; simpl. by rewrite lookup_insert_eq. Qed.

Lemma obj_at_insert_ne l l' o h a :
  l ≠ l' → obj_at (World (<[l := o]> h) a) l' = obj_at (World h a) l'.
Proof. intros Hne. unfold obj_at; simpl. by rewrite lookup_insert_ne. Qed.

Lemma set_field_insert l key v o h a :
  set_field l key v (World (<[l := o]> h) a)
  = World (<[l := Obj (proto o) (<[key := v]> (fields o))]> h) a.
Proof.
  unfold set_field. rewrite obj_at_insert. simpl. by rewrite insert_insert_eq.
Qed.

Lemma decorate_obj_at H l s w :
  obj_at (decorate H l s w) l = decorate_obj H s (obj_at w l).
Proof.
  unfold decorate, decorate_obj. destruct (generic H s (obj_at w l)); [|done].
  by rewrite !obj_at_set_field_eq.
Qed.

Lemma decorate_heap_ne H l l' s w :
  l ≠ l' → heap (decorate H l s w) !! l' = heap w !! l'.
Proof.
  intros Hne. unfold decorate. destruct (generic H s (obj_at w l)); [|done].
  by rewrite !heap_set_field_ne.
Qed.

Lemma decorate_dom H l s w :
  l ∈ dom (heap w) → dom (heap (decorate H l s w)) = dom (heap w).
Proof.
  intros Hl. unfold decorate. destruct (generic H s (obj_at w l)); [|done].
  assert (Hsub : {[l]} ∪ dom (heap w) = dom (heap w))
    by (by apply subseteq_union_1_L, singleton_subseteq_l).
  unfold set_field; simpl. by rewrite !dom_insert_L, !Hsub.
Qed.

Lemma decorate_advisories H l s w :
  advisories (decorate H l s w) = advisories w.
Proof. unfold decorate. by destruct (generic H s (obj_at w l)). Qed.

Lemma merge_fields_empty dst : merge_fields ∅ dst = dst.
Proof. apply map_eq. intros key. by rewrite merge_fields_kept. Qed.

Lemma merge_props_obj_at l props w :
  obj_at (merge_props l props w) l = merge_obj (bag_fields w props) (obj_at w l).
Proof.
  unfold merge_props, merge_obj, bag_fields.
  destruct props as [|[]]; try (rewrite merge_fields_empty; by destruct (obj_at w l)).
  by rewrite obj_at_insert.
Qed.

Lemma merge_props_heap_ne l l' props w :
  l ≠ l' → heap (merge_props l props w) !! l' = heap w !! l'.
Proof.
  intros Hne. unfold merge_props. destruct props as [|[]]; try done.
  simpl. by rewrite lookup_insert_ne.
Qed.

Lemma merge_props_dom l props w :
  l ∈ dom (heap w) → dom (heap (merge_props l props w)) = dom (heap w).
Proof.
  intros Hl. unfold merge_props. destruct props as [|[]]; try done.
  simpl. rewrite dom_insert_L. by apply subseteq_union_1_L, singleton_subseteq_l.
Qed.

Lemma merge_props_advisories l props w :
  advisories (merge_props l props w) = advisories w.
Proof. unfold merge_props. by destruct props as [|[]]. Qed.

Lemma fresh_not_in_heap (w : world) : heap w !! fresh (dom (heap w)) = None.
Proof. apply not_elem_of_dom, is_fresh. Qed.

Section Construction.

Variable message : gmap Z string.

Lemma construct_world C msg w :
  construct message C msg w
  = Ok (fresh (dom (heap w)))
       (World (<[fresh (dom (heap w)) := constructed (message !! code C) C msg]> (heap w))
              (advisories w)).
Proof.
  unfold construct, HttpError_constructor, new_object, constructed, bind.
  simpl. by rewrite !set_field_insert.
Qed.

Lemma new_Error_world m status w :
  new_Error message m status w
  = Ok (fresh (dom (heap w)))
       (World (<[fresh (dom (heap w)) := new_error_obj message m status]> (heap w))
              (advisories w)).
Proof. reflexivity. Qed.

Lemma new_error_obj_no_field m status key :
  key ≠ "message" → fields (new_error_obj message m status) !! key = None.
Proof.
  intros Hkey. unfold new_error_obj; simpl.
  destruct (match m with Some _ => _ | None => _ end);
    [by rewrite lookup_singleton_ne|by rewrite lookup_empty].
Qed.

End Construction.

(** ** The class of a code *)

Lemma codeClass_4xx c : 400 ≤ c < 500 → codeClass (Int c) = Int 400.
Proof.
  intros Hc.
  assert (Hall : forallb (fun c => bool_decide (codeClass (Int c) = Int 400))
                   (seqZ 400 100) = true) by (vm_compute; reflexivity).
  rewrite forallb_forall in Hall.
  eapply bool_decide_eq_true_1, Hall, list_elem_of_In, elem_of_seqZ. lia.
Qed.

Lemma codeClass_5xx c : 500 ≤ c < 600 → codeClass (Int c) = Int 500.
Proof.
  intros Hc.
  assert (Hall : forallb (fun c => bool_decide (codeClass (Int c) = Int 500))
                   (seqZ 500 100) = true) by (vm_compute; reflexivity).
  rewrite forallb_forall in Hall.
  eapply bool_decide_eq_true_1, Hall, list_elem_of_In, elem_of_seqZ. lia.
Qed.

(** ** The exports *)

Section Exports.

Variable message : gmap Z string.
Variable toIdentifier : string → string.

Lemma elem_of_codes c phrase : message !! c = Some phrase → c ∈ codes message.
Proof.
  intros Hc. unfold codes. apply list_elem_of_fmap.
  exists (c, phrase). split; [done|]. by apply elem_of_map_to_list.
Qed.

Lemma forEachCode_other ex x c key :
  key_owned message toIdentifier c key → x ≠ c →
  forEachCode message toIdentifier ex x !! key = ex !! key.
Proof.
  intros Hown Hx. unfold forEachCode.
  destruct (message !! x) as [phrase'|] eqn:Hphrase; [|done].
  destruct (Hown x phrase' Hphrase Hx) as [Hname Hnum].
  simpl. destruct (switch_codeClass _ _); [|done].
  by rewrite !lookup_insert_ne.
Qed.

Lemma forEachCode_own ex c phrase C key :
  message !! c = Some phrase →
  switch_codeClass (toIdentifier phrase) c = Some C →
  key = pretty c ∨ key = toIdentifier phrase →
  forEachCode message toIdentifier ex c !! key = Some C.
Proof.
  intros Hphrase Hswitch Hkey. unfold forEachCode. rewrite Hphrase. simpl.
  rewrite Hswitch.
  destruct (decide (key = toIdentifier phrase)) as [->|Hne].
  - by rewrite lookup_insert_eq.
  - destruct Hkey as [->|]; [|done].
    rewrite lookup_insert_ne by done. by rewrite lookup_insert_eq.
Qed.

Lemma populate_lookup_owned cs : ∀ ex c phrase C key,
  message !! c = Some phrase →
  switch_codeClass (toIdentifier phrase) c = Some C →
  key_owned message toIdentifier c key →
  key = pretty c ∨ key = toIdentifier phrase →
  c ∈ cs →
  populateConstructorExports message toIdentifier ex cs !! key = Some C.
Proof.
  induction cs as [|x cs IH] using rev_ind; intros ex c phrase C key Hphrase Hswitch Hown Hkey Hin.
  - by apply elem_of_nil in Hin.
  - unfold populateConstructorExports. rewrite foldl_app. simpl.
    destruct (decide (x = c)) as [->|Hx].
    + by apply (forEachCode_own _ c phrase).
    + rewrite (forEachCode_other _ x c key Hown Hx).
      apply (IH ex c phrase C key); try done.
      apply elem_of_app in Hin as [Hin|Hin]; [done|].
      apply list_elem_of_singleton in Hin. congruence.
Qed.

Lemma exports_lookup c phrase C key :
  message !! c = Some phrase →
  switch_codeClass (toIdentifier phrase) c = Some C →
  key_owned message toIdentifier c key →
  key = pretty c ∨ key = toIdentifier phrase →
  exports message toIdentifier !! key = Some C.
Proof.
  intros Hphrase Hswitch Hown Hkey. unfold exports.
  apply (populate_lookup_owned _ _ c phrase); try done.
  by apply (elem_of_codes c phrase).
Qed.

(** The class the registry builder makes for an error code. *)
Lemma switch_codeClass_error name c :
  400 ≤ c < 600 →
  switch_codeClass name c
  = Some (Ctor (if c <? 500 then ClientError else ServerError) c (toClassName name)).
Proof.
  intros Hc. unfold switch_codeClass.
  destruct (Z.ltb_spec c 500).
  - rewrite codeClass_4xx by lia. done.
  - rewrite codeClass_5xx by lia. done.
Qed.

End Exports.

(** ** Instances of the synthesized classes *)

Lemma constructed_status phrase C msg :
  fields (constructed phrase C msg) !! "status" = Some (VNum (Int (code C))).
Proof.
  unfold constructed; simpl.
  rewrite !lookup_insert_ne by done. by rewrite lookup_insert_eq.
Qed.

Lemma constructed_statusCode phrase C msg :
  fields (constructed phrase C msg) !! "statusCode" = Some (VNum (Int (code C))).
Proof.
  unfold constructed; simpl.
  rewrite !lookup_insert_ne by done. by rewrite lookup_insert_eq.
Qed.

Lemma constructed_expose phrase C msg :
  fields (constructed phrase C msg) !! "expose"
  = Some (VBool match kind C with ClientError => true | ServerError => false end).
Proof. unfold constructed; simpl. by rewrite lookup_insert_eq. Qed.

Lemma constructed_message phrase C msg m :
  match msg with Some m' => Some m' | None => phrase end = Some m →
  fields (constructed phrase C msg) !! "message" = Some (VStr m).
Proof.
  intros Hm. unfold constructed; simpl. rewrite Hm.
  rewrite !lookup_insert_ne by done. by rewrite lookup_singleton_eq.
Qed.

Lemma constructed_instanceof phrase C msg :
  instanceof (constructed phrase C msg) (CCtor C) = true.
Proof. apply instanceof_self. Qed.

Lemma constructed_not_generic phrase C msg :
  generic (Some C) (Int (code C)) (constructed phrase C msg) = false.
Proof.
  unfold generic. rewrite constructed_instanceof.
  rewrite (get_own _ _ _ (constructed_status phrase C msg)).
  simpl. by rewrite bool_decide_true.
Qed.

Section Registered.

Variable message : gmap Z string.
Variable toIdentifier : string → string.

Lemma non_error_status_in_range c :
  400 ≤ c < 600 → non_error_status (VNum (Int c)) = false.
Proof. intros Hc. simpl. apply orb_false_iff. split; lia. Qed.

Lemma resolve_status_in_range c :
  400 ≤ c < 600 → resolve_status message (VNum (Int c)) = Int c.
Proof.
  intros Hc. unfold resolve_status.
  replace (num_lt (Int c) 400 || num_ge (Int c) 600) with false.
  - by rewrite andb_false_r.
  - symmetry. apply orb_false_iff. simpl. split; lia.
Qed.

Lemma build_registered c C m w :
  400 ≤ c < 600 →
  exports message toIdentifier !! pretty c = Some C →
  code C = c →
  build message toIdentifier (Vars None m (VNum (Int c)) BagLiteral) w
  = Ok (fresh (dom (heap w)))
       (World (<[fresh (dom (heap w)) := constructed (message !! c) C m]> (heap w))
              (advisories w)).
Proof.
  intros Hc Hexp <-. unfold build. cbn [status err msg props].
  rewrite (non_error_status_in_range _ Hc), (resolve_status_in_range _ Hc).
  unfold resolve_ctor. simpl String_of_num. rewrite Hexp.
  rewrite construct_world. simpl bind.
  unfold decorate. rewrite obj_at_insert.
  by rewrite constructed_not_generic.
Qed.

Lemma constructed_name phrase C msg :
  fields (constructed phrase C msg) !! "name" = Some (VStr (className C)).
Proof.
  unfold constructed; simpl.
  rewrite lookup_insert_ne by done. by rewrite lookup_insert_eq.
Qed.

Lemma constructed_instance_of_code phrase C msg c m :
  code C = c →
  kind C = (if c <? 500 then ClientError else ServerError) →
  match msg with Some m' => Some m' | None => phrase end = Some m →
  instance_of_code C c m (constructed phrase C msg).
Proof.
  intros <- Hkind Hm. unfold instance_of_code.
  rewrite (get_own _ _ _ (constructed_status _ C _)),
          (get_own _ _ _ (constructed_statusCode _ C _)),
          (get_own _ _ _ (constructed_expose _ C _)),
          (get_own _ _ _ (constructed_name _ C _)),
          (get_own _ _ _ (constructed_message _ C _ m Hm)).
  assert (Hinst : instanceof (constructed phrase C msg) CHttpError = true).
  { apply (instanceof_ctor_HttpError _ C), constructed_instanceof. }
  split; [done|]. split; [done|].
  split; [by apply instanceof_HttpError_Error|].
  repeat split. rewrite Hkind. by destruct (code C <? 500).
Qed.

(** C1. For a registered code [c] of [400, 599], let [C] be the class
    synthesized for [c]: the client kind below 500 and the server kind from
    500 on, named after the identifier of the reason phrase. The exports hold
    [C] under the numeral of [c], and [createError(c)] and
    [createError(c, m)] return a new object, leaving the heap as it was
    elsewhere, that is an instance of [C] (hence an [HttpError] and an
    [Error]) with [status] and [statusCode] equal to [c], [expose] true
    exactly when [c < 500], [name] the name of [C], and [message] the given
    [m], or the reason phrase of [c] when none is given. *)
Theorem createError_registered (c : Z) (phrase : string) (w : world) :
  400 ≤ c < 600 →
  message !! c = Some phrase →
  key_owned message toIdentifier c (pretty c) →
  let C := Ctor (if c <? 500 then ClientError else ServerError) c
             (toClassName (toIdentifier phrase)) in
  exports message toIdentifier !! String_of_num (Int c) = Some C
  ∧ (∃ l w', createError message toIdentifier [VNum (Int c)] w = Ok l w'
             ∧ heap w !! l = None
             ∧ (∀ l', l' ≠ l → heap w' !! l' = heap w !! l')
             ∧ instance_of_code C c phrase (obj_at w' l))
  ∧ (∀ m, ∃ l w', createError message toIdentifier [VNum (Int c); VStr m] w = Ok l w'
             ∧ heap w !! l = None
             ∧ (∀ l', l' ≠ l → heap w' !! l' = heap w !! l')
             ∧ instance_of_code C c m (obj_at w' l)).
Proof.
  intros Hc Hphrase Hown C.
  assert (Hexp : exports message toIdentifier !! pretty c = Some C).
  { apply (exports_lookup _ _ c phrase); auto using switch_codeClass_error. }
  split; [exact Hexp|].
  split; [|intros m]; eexists _, _;
    (split; [unfold createError; simpl scan;
             apply (build_registered c C); done|]);
    (split; [apply fresh_not_in_heap|]);
    (split; [intros l' Hl'; simpl; by rewrite lookup_insert_ne|]);
    rewrite obj_at_insert; by apply constructed_instance_of_code.
Qed.

End Registered.

Lemma createError_registered_witness :
  let C := Ctor (if 404 <? 500 then ClientError else ServerError) 404
             (toClassName (toidentifier "Not Found")) in
  exports statuses toidentifier !! String_of_num (Int 404) = Some C
  ∧ (∃ l w', createError statuses toidentifier [VNum (Int 404)] empty_world = Ok l w'
             ∧ heap empty_world !! l = None
             ∧ (∀ l', l' ≠ l → heap w' !! l' = heap empty_world !! l')
             ∧ instance_of_code C 404 "Not Found" (obj_at w' l))
  ∧ (∀ m, ∃ l w', createError statuses toidentifier [VNum (Int 404); VStr m] empty_world
                  = Ok l w'
             ∧ heap empty_world !! l = None
             ∧ (∀ l', l' ≠ l → heap w' !! l' = heap empty_world !! l')
             ∧ instance_of_code C 404 m (obj_at w' l)).
Proof.
  apply (createError_registered statuses toidentifier 404 "Not Found" empty_world).
  - lia.
  - vm_compute. reflexivity.
  - unfold key_owned. apply (bool_decide_unpack _). vm_compute. exact I.
Defined.

(** ** The exported classes *)

Section ExportedClasses.

Variable message : gmap Z string.
Variable toIdentifier : string → string.

(** C6. For a code [c] of [400, 599] known to the registry, the exports hold
    the class synthesized for [c] under the numeric key of [c] and under its
    identifier, and constructing that class with no message gives an instance
    whose [message] is the reason phrase of [c] and whose [expose] is true
    for 4xx and false for 5xx. *)
Theorem exported_class (c : Z) (phrase : string) :
  400 ≤ c < 600 →
  message !! c = Some phrase →
  key_owned message toIdentifier c (pretty c) →
  key_owned message toIdentifier c (toIdentifier phrase) →
  ∃ C, exports message toIdentifier !! String_of_num (Int c) = Some C
       ∧ exports message toIdentifier !! toIdentifier phrase = Some C
       ∧ code C = c
       ∧ className C = toClassName (toIdentifier phrase)
       ∧ ∀ w, ∃ l w', construct message C None w = Ok l w'
                      ∧ heap w !! l = None
                      ∧ instanceof (obj_at w' l) (CCtor C) = true
                      ∧ get (obj_at w' l) "message" = VStr phrase
                      ∧ get (obj_at w' l) "expose" = VBool (c <? 500)
                      ∧ get (obj_at w' l) "status" = VNum (Int c)
                      ∧ get (obj_at w' l) "statusCode" = VNum (Int c).
Proof.
  intros Hc Hphrase Hnum Hname.
  exists (Ctor (if c <? 500 then ClientError else ServerError) c
            (toClassName (toIdentifier phrase))).
  split; [|split; [|split; [done|split; [done|]]]].
  - apply (exports_lookup _ _ c phrase); auto using switch_codeClass_error.
  - apply (exports_lookup _ _ c phrase); auto using switch_codeClass_error.
  - intros w. eexists _, _. split; [apply construct_world|].
    rewrite obj_at_insert. split; [apply fresh_not_in_heap|].
    split; [apply constructed_instanceof|].
    rewrite (get_own _ _ _ (constructed_status _ _ _)),
            (get_own _ _ _ (constructed_statusCode _ _ _)),
            (get_own _ _ _ (constructed_expose _ _ _)).
    rewrite (get_own _ _ (VStr phrase)); [|by apply constructed_message].
    simpl. by destruct (c <? 500).
Qed.

End ExportedClasses.

Lemma exported_class_witness :
  ∃ C, exports statuses toidentifier !! String_of_num (Int 404) = Some C
       ∧ exports statuses toidentifier !! toidentifier "Not Found" = Some C
       ∧ code C = 404
       ∧ className C = toClassName (toidentifier "Not Found")
       ∧ ∀ w, ∃ l w', construct statuses C None w = Ok l w'
                      ∧ heap w !! l = None
                      ∧ instanceof (obj_at w' l) (CCtor C) = true
                      ∧ get (obj_at w' l) "message" = VStr "Not Found"
                      ∧ get (obj_at w' l) "expose" = VBool (404 <? 500)
                      ∧ get (obj_at w' l) "status" = VNum (Int 404)
                      ∧ get (obj_at w' l) "statusCode" = VNum (Int 404).
Proof.
  apply (exported_class statuses toidentifier 404 "Not Found").
  - lia.
  - vm_compute. reflexivity.
  - unfold key_owned. apply (bool_decide_unpack _). vm_compute. exact I.
  - unfold key_owned. apply (bool_decide_unpack _). vm_compute. exact I.
Defined.

(** ** The factory after the scan *)


Lemma obj_at_lookup w w' l : heap w' !! l = heap w !! l → obj_at w' l = obj_at w l.
Proof. unfold obj_at. by intros ->. Qed.

Lemma decorate_obj_other H s o key :
  key ≠ "expose" → key ≠ "status" → key ≠ "statusCode" →
  fields (decorate_obj H s o) !! key = fields o !! key.
Proof.
  intros H1 H2 H3. unfold decorate_obj. destruct (generic H s o); [|done].
  simpl. by rewrite !lookup_insert_ne.
Qed.

Lemma decorate_obj_status H s o :
  fields (decorate_obj H s o) !! "status" = Some (VNum s).
Proof.
  unfold decorate_obj. destruct (generic H s o) eqn:Hgen.
  - simpl. by rewrite lookup_insert_eq.
  - unfold generic in Hgen. destruct H as [C|]; [|done].
    apply orb_false_iff in Hgen as [_ Heq].
    apply negb_false_iff, strict_eq_true in Heq. by apply get_status_num.
Qed.

Lemma decorate_obj_proto H s o : proto (decorate_obj H s o) = proto o.
Proof. unfold decorate_obj. by destruct (generic H s o). Qed.

Lemma merge_obj_proto src o : proto (merge_obj src o) = proto o.
Proof. reflexivity. Qed.

Section Build.

Variable message : gmap Z string.
Variable toIdentifier : string → string.

(** The world [build] decorates, and the object it decorates there: the error
    it was given, or a new instance at a fresh location. *)
Lemma build_cases v w :
  ∃ w1,
    build message toIdentifier v w
    = Ok (target v w)
         (merge_props (target v w) (props v)
            (decorate (resolve_ctor message toIdentifier (resolve_status message (status v)))
               (target v w) (resolve_status message (status v)) w1))
    ∧ advisories w1
      = advisories (if non_error_status (status v)
                    then deprecate "non-error status code; use only 4xx or 5xx status codes" w
                    else w)
    ∧ match err v with
      | Some e => heap w1 = heap w
      | None => heap w1 = <[target v w := fresh_instance message toIdentifier v]> (heap w)
      end.
Proof.
  unfold build, target, fresh_instance.
  set (wa := if non_error_status (status v) then _ else w).
  assert (Hwa : heap wa = heap w) by (subst wa; by destruct (non_error_status _)).
  set (s := resolve_status message (status v)).
  destruct (err v) as [e|] eqn:Herr.
  - exists wa. done.
  - destruct (resolve_ctor message toIdentifier s) as [C|] eqn:HC.
    + rewrite construct_world, Hwa. eexists. split; [done|]. done.
    + rewrite new_Error_world, Hwa. eexists. split; [done|]. done.
Qed.

(** [build] always returns; it changes the heap at one location only, and
    what it leaves there is [final_object]. *)
Lemma build_final v w :
  (∀ e, err v = Some e → e ∈ dom (heap w)) →
  ∃ w', build message toIdentifier v w = Ok (target v w) w'
        ∧ obj_at w' (target v w) = final_object message toIdentifier v w
        ∧ (∀ l, l ≠ target v w → heap w' !! l = heap w !! l)
        ∧ dom (heap w') = {[target v w]} ∪ dom (heap w).
Proof.
  intros Hwf. destruct (build_cases v w) as (w1 & -> & _ & Hheap).
  set (e := target v w) in *.
  set (s := resolve_status message (status v)) in *.
  set (H := resolve_ctor message toIdentifier s) in *.
  assert (Hstart : obj_at w1 e = start_object message toIdentifier v w).
  { unfold start_object, obj_at, e, target in *. destruct (err v).
    - by rewrite Hheap.
    - by rewrite Hheap, lookup_insert_eq. }
  assert (Hother : ∀ l, l ≠ e → heap w1 !! l = heap w !! l).
  { intros l Hl. unfold e, target in *. destruct (err v); rewrite Hheap; [done|].
    by rewrite lookup_insert_ne. }
  assert (Hdom : dom (heap w1) = {[e]} ∪ dom (heap w)).
  { unfold e, target in *. destruct (err v) as [e0|] eqn:Herr; rewrite Hheap.
    - symmetry. by apply subseteq_union_1_L, singleton_subseteq_l, Hwf.
    - by rewrite dom_insert_L. }
  assert (Hin : e ∈ dom (heap w1)).
  { rewrite Hdom. apply elem_of_union_l. by apply elem_of_singleton. }
  eexists. split; [done|]. split; [|split].
  - rewrite merge_props_obj_at, decorate_obj_at, Hstart.
    unfold final_object. fold s H e. f_equal.
    unfold bag_fields. destruct (props v) as [|[]]; try done.
    destruct (bool_decide_reflect (l = e)) as [->|Hne].
    + by rewrite decorate_obj_at, Hstart.
    + f_equal. apply obj_at_lookup.
      rewrite decorate_heap_ne by done. by apply Hother.
  - intros l Hl. rewrite merge_props_heap_ne, decorate_heap_ne by done.
    by apply Hother.
  - rewrite merge_props_dom, decorate_dom; try done. by rewrite decorate_dom.
Qed.

(** [build] always returns, and the [status] of what it returns is the
    resolved status. *)
Lemma build_status v w :
  ∃ e w', build message toIdentifier v w = Ok e w'
          ∧ fields (obj_at w' e) !! "status"
            = Some (VNum (resolve_status message (status v))).
Proof.
  destruct (build_cases v w) as (w1 & -> & _).
  eexists _, _. split; [done|].
  rewrite merge_props_obj_at, decorate_obj_at. simpl.
  rewrite merge_fields_reserved by auto. apply decorate_obj_status.
Qed.

Lemma falls_back_resolve st :
  falls_back message st = true → resolve_status message st = Int 500.
Proof.
  unfold falls_back, resolve_status. destruct st; try done. by intros ->.
Qed.

End Build.

(** ** Status fallback *)

Section Fallback.

Variable message : gmap Z string.
Variable toIdentifier : string → string.

(** C2, as the code has it. Whenever the scan ends with a working status that
    is not a number, or is a number below 400 or from 600 on without a reason
    phrase, the factory returns (it does not throw) an error whose [status]
    is 500; this covers a first numeric argument and a status adopted from an
    error object. A status that has a reason phrase is kept, in range or
    not. *)
Theorem unregistered_status_falls_back (w : world) :
  (∀ args v,
     scan w 0 args init_vars = inr v →
     falls_back message (status v) = true →
     ∃ l w', createError message toIdentifier args w = Ok l w'
             ∧ get (obj_at w' l) "status" = VNum (Int 500))
  ∧ (∀ n,
       num_lt n 400 || num_ge n 600 = true →
       statuses_message message n = None →
       ∃ l w', createError message toIdentifier [VNum n] w = Ok l w'
               ∧ get (obj_at w' l) "status" = VNum (Int 500))
  ∧ (∀ e x,
       instanceof (obj_at w e) CError = true →
       get (obj_at w e) "status" = x →
       truthy x = true →
       falls_back message x = true →
       ∃ w', createError message toIdentifier [VObj e] w = Ok e w'
             ∧ get (obj_at w' e) "status" = VNum (Int 500))
  ∧ (∀ n phrase,
       statuses_message message n = Some phrase →
       phrase ≠ "" →
       ∃ l w', createError message toIdentifier [VNum n] w = Ok l w'
               ∧ get (obj_at w' l) "status" = VNum n).
Proof.
  assert (Hgen : ∀ args v,
            scan w 0 args init_vars = inr v →
            ∃ l w', createError message toIdentifier args w = Ok l w'
                    ∧ (err v = None ∨ err v = Some l)
                    ∧ get (obj_at w' l) "status"
                      = VNum (resolve_status message (status v))).
  { intros args v Hscan. unfold createError. rewrite Hscan.
    destruct (build_cases message toIdentifier v w) as (w1 & Hb & _).
    destruct (build_status message toIdentifier v w) as (e' & w' & Hb' & Hst).
    exists e', w'. split; [done|]. split; [|by apply get_own].
    rewrite Hb in Hb'. injection Hb' as <- _.
    unfold target. destruct (err v); auto. }
  split; [|split; [|split]].
  - intros args v Hscan Hbad.
    destruct (Hgen args v Hscan) as (l & w' & Hc & _ & Hst).
    exists l, w'. split; [done|]. by rewrite Hst, falls_back_resolve.
  - intros n Hout Hnone.
    destruct (Hgen [VNum n] _ eq_refl) as (l & w' & Hc & _ & Hst).
    exists l, w'. split; [done|]. rewrite Hst. f_equal.
    apply falls_back_resolve. simpl. by rewrite Hnone, Hout.
  - intros e x Hinst Hx Htruthy Hbad.
    assert (Hscan : scan w 0 [VObj e] init_vars
                    = inr (Vars (Some e) None x BagLiteral)).
    { simpl. rewrite scan_arg_VObj, Hinst. simpl. unfold js_or.
      by rewrite Hx, Htruthy. }
    destruct (Hgen _ _ Hscan) as (l & w' & Hc & [He|He] & Hst); [done|].
    injection He as <-. exists w'. split; [done|].
    by rewrite Hst, falls_back_resolve.
  - intros n phrase Hphrase Hne.
    destruct (Hgen [VNum n] _ eq_refl) as (l & w' & Hc & _ & Hst).
    exists l, w'. split; [done|]. rewrite Hst. f_equal.
    simpl. rewrite Hphrase. simpl.
    destruct (String.eqb_spec phrase ""); [done|]. done.
Qed.

End Fallback.

(** C2 as stated fails: 200 lies outside [400, 599], and [createError(200)]
    returns an error whose status is 200, not 500. *)
Lemma registered_status_kept_counterexample :
  result_get (createError statuses toidentifier [VNum (Int 200)] empty_world) "status"
  = Some (VNum (Int 200))
  ∧ result_get (createError statuses toidentifier [VNum (Int 200)] empty_world) "status"
    ≠ Some (VNum (Int 500)).
Proof. split; [vm_compute; reflexivity|vm_compute; discriminate]. Qed.

Lemma unregistered_status_falls_back_witness :
  ∃ l w', createError statuses toidentifier [VNum (Int 700)] empty_world = Ok l w'
          ∧ get (obj_at w' l) "status" = VNum (Int 500).
Proof.
  apply (proj1 (proj2 (unregistered_status_falls_back statuses toidentifier empty_world))
           (Int 700)).
  - reflexivity.
  - vm_compute. reflexivity.
Defined.

(** ** What the scan retains *)

Lemma last_omap_cons {A B} (f : A → option B) (a : A) (l : list A) :
  last (omap f (a :: l)) = match last (omap f l) with
                           | Some y => Some y
                           | None => f a
                           end.
Proof.
  change (omap f (a :: l))
    with (match f a with Some y => y :: omap f l | None => omap f l end).
  destruct (f a) as [b|]; [|by destruct (last (omap f l))].
  rewrite last_cons. by destruct (last (omap f l)).
Qed.

Lemma last_omap_None {A B} (f : A → option B) (a : A) (l : list A) :
  last (omap f (a :: l)) = None → f a = None ∧ last (omap f l) = None.
Proof. rewrite last_omap_cons. by destruct (last (omap f l)). Qed.

Section Retained.

Lemma scan_arg_retains w i a v v' :
  scan_arg w i a v = inr v' →
  err v' = match error_loc w a with Some e => Some e | None => err v end
  ∧ props v' = match bag_value w a with Some b => BagArg b | None => props v end
  ∧ supported i a = true.
Proof.
  unfold scan_arg, error_loc, bag_value, supported.
  destruct a; simpl; try discriminate.
  - intros [= <-]. done.
  - destruct (bool_decide (i = 0%nat)); [|discriminate]. intros [= <-]. done.
  - intros [= <-]. done.
  - destruct (instanceof (obj_at w l) CError); intros [= <-]; done.
Qed.

Lemma scan_retains args : ∀ w k v v',
  scan w k args v = inr v' →
  err v' = match last_error w args with Some e => Some e | None => err v end
  ∧ props v' = match last_bag w args with Some b => BagArg b | None => props v end
  ∧ (∀ i a, args !! i = Some a → supported (k + i) a = true).
Proof.
  induction args as [|a args IH]; intros w k v v' Hscan.
  - injection Hscan as <-. split; [done|split; [done|]]. by intros i a.
  - simpl in Hscan. destruct (scan_arg w k a v) as [|v1] eqn:Harg; [done|].
    apply scan_arg_retains in Harg as (He1 & Hp1 & Hs1).
    apply IH in Hscan as (He & Hp & Hs).
    unfold last_error, last_bag in *. rewrite !last_omap_cons.
    split; [|split].
    + rewrite He, He1. by destruct (last (omap (error_loc w) args)).
    + rewrite Hp, Hp1. by destruct (last (omap (bag_value w) args)).
    + intros [|i] a' Ha'; simpl in Ha'.
      * injection Ha' as <-. by rewrite Nat.add_0_r.
      * replace (k + S i)%nat with (S k + i)%nat by lia. by apply Hs.
Qed.

Lemma scan_arg_status_keep w k a v v' :
  scan_arg w (S k) a v = inr v' → error_loc w a = None → status v' = status v.
Proof.
  unfold scan_arg, error_loc. destruct a; simpl; try discriminate.
  - by intros [= <-].
  - by intros [= <-].
  - destruct (instanceof (obj_at w l) CError); [done|]. by intros [= <-].
Qed.

Lemma scan_status_keep w args : ∀ k v v',
  scan w (S k) args v = inr v' → last_error w args = None → status v' = status v.
Proof.
  induction args as [|a args IH]; intros k v v' Hscan Hnone.
  - by injection Hscan as <-.
  - simpl in Hscan. destruct (scan_arg w (S k) a v) as [|v1] eqn:Harg; [done|].
    apply last_omap_None in Hnone as [Ha Hnone].
    rewrite (IH (S k) v1 v' Hscan Hnone). by apply (scan_arg_status_keep w k a).
Qed.


Lemma last_error_is_error w args e :
  last_error w args = Some e →
  instanceof (obj_at w e) CError = true ∧ e ∈ dom (heap w).
Proof.
  unfold last_error. intros Hlast.
  assert (Hin : e ∈ omap (error_loc w) args).
  { apply last_Some in Hlast as [l' ->]. apply elem_of_app. right.
    apply list_elem_of_singleton. done. }
  apply list_elem_of_omap in Hin as (a & _ & Ha).
  unfold error_loc in Ha. destruct a; try discriminate.
  destruct (instanceof (obj_at w l) CError) eqn:Hinst; [|discriminate].
  injection Ha as ->. split; [done|].
  unfold obj_at in Hinst. apply elem_of_dom.
  destruct (heap w !! e); [eauto|]. simpl in Hinst. discriminate.
Qed.

Lemma last_bag_not_error w args b :
  last_bag w args = Some (VObj b) → instanceof (obj_at w b) CError = false.
Proof.
  unfold last_bag. intros Hlast.
  assert (Hin : VObj b ∈ omap (bag_value w) args).
  { apply last_Some in Hlast as [l' ->]. apply elem_of_app. right.
    apply list_elem_of_singleton. done. }
  apply list_elem_of_omap in Hin as (a & _ & Ha).
  unfold bag_value in Ha. destruct a; try discriminate.
  destruct (instanceof (obj_at w l) CError) eqn:Hinst; [discriminate|].
  by injection Ha as ->.
Qed.

End Retained.

(** ** Decorating an existing error *)

Section Existing.

Variable message : gmap Z string.
Variable toIdentifier : string → string.





End Existing.

(** ** The returned error as an object *)

Section Final.

Variable message : gmap Z string.
Variable toIdentifier : string → string.

Lemma scan_err_in_heap args w v e :
  scan w 0 args init_vars = inr v → err v = Some e →
  instanceof (obj_at w e) CError = true ∧ e ∈ dom (heap w).
Proof.
  intros Hscan He. apply scan_retains in Hscan as (Herr & _ & _).
  rewrite He in Herr. simpl in Herr.
  destruct (last_error w args) as [e'|] eqn:Hlast; [|done].
  injection Herr as ->. by apply (last_error_is_error w args).
Qed.

Lemma createError_final args w v :
  scan w 0 args init_vars = inr v →
  ∃ w', createError message toIdentifier args w = Ok (target v w) w'
        ∧ obj_at w' (target v w) = final_object message toIdentifier v w
        ∧ (∀ l, l ≠ target v w → heap w' !! l = heap w !! l)
        ∧ dom (heap w') = {[target v w]} ∪ dom (heap w).
Proof.
  intros Hscan. unfold createError. rewrite Hscan.
  apply build_final. intros e He.
  by apply (scan_err_in_heap args w v e Hscan He).
Qed.

(** An object of the heap that the call uses as its bag is not the error the
    call returns. *)
Lemma bag_not_target args w v b :
  scan w 0 args init_vars = inr v →
  last_bag w args = Some (VObj b) →
  b ∈ dom (heap w) →
  b ≠ target v w.
Proof.
  intros Hscan Hbag Hdom Heq. unfold target in Heq.
  destruct (err v) as [e|] eqn:He.
  - destruct (scan_err_in_heap args w v e Hscan He) as [Hinst _].
    apply last_bag_not_error in Hbag. congruence.
  - subst b. by apply is_fresh in Hdom.
Qed.

Lemma scan_props_last args w v b :
  scan w 0 args init_vars = inr v →
  last_bag w args = Some b → props v = BagArg b.
Proof.
  intros Hscan Hbag. apply scan_retains in Hscan as (_ & Hp & _).
  by rewrite Hbag in Hp.
Qed.

Lemma generic_settled H s o : generic H s o = negb (settled H s o).
Proof.
  unfold generic, settled, instance_of_found. destruct H as [C|]; [|done].
  by rewrite negb_andb.
Qed.

Lemma settled_status H s o :
  settled H s o = true → fields o !! "status" = Some (VNum s).
Proof.
  unfold settled. intros Hs. apply andb_true_iff in Hs as [_ Hs].
  by apply get_status_num, strict_eq_true.
Qed.

(** The fields [decorate] leaves, as the specification words them. *)
Lemma decorate_obj_field H s o key :
  fields (decorate_obj H s o) !! key = decorated_field H s ∅ o key.
Proof.
  unfold decorate_obj, decorated_field. rewrite generic_settled, lookup_empty.
  destruct (settled H s o) eqn:Hset; simpl.
  - destruct (String.eqb_spec key "status") as [->|H1];
      [by apply (settled_status H)|].
    destruct (String.eqb_spec key "statusCode") as [->|H2]; [done|].
    by rewrite andb_false_r.
  - destruct (String.eqb_spec key "status") as [->|H1];
      [by rewrite lookup_insert_eq|].
    rewrite lookup_insert_ne by done.
    destruct (String.eqb_spec key "statusCode") as [->|H2];
      [by rewrite lookup_insert_eq|].
    rewrite lookup_insert_ne by done.
    destruct (String.eqb_spec key "expose") as [->|H3];
      [by rewrite lookup_insert_eq|].
    by rewrite lookup_insert_ne.
Qed.

Lemma merge_fields_self m : merge_fields m m = m.
Proof.
  apply map_eq. intros key. rewrite merge_fields_lookup.
  destruct (_ && _); [|done]. by destruct (m !! key).
Qed.

(** The merge reads the last property bag of the call, as it was on entry. *)
Lemma final_object_merge args w v :
  scan w 0 args init_vars = inr v →
  fields (final_object message toIdentifier v w)
  = merge_fields (last_bag_fields w args)
      (fields (decorate_obj
                 (resolve_ctor message toIdentifier (resolve_status message (status v)))
                 (resolve_status message (status v))
                 (start_object message toIdentifier v w))).
Proof.
  intros Hscan. unfold final_object, last_bag_fields. simpl.
  destruct (scan_retains args w 0 init_vars v Hscan) as (_ & Hp & _).
  simpl in Hp. rewrite Hp.
  destruct (last_bag w args) as [[]|] eqn:Hbag; try done.
  destruct (bool_decide_reflect (l = target v w)) as [Heq|Hne]; [|done].
  assert (Hfree : heap w !! l = None).
  { destruct (heap w !! l) as [o|] eqn:Hl; [|done]. exfalso.
    apply (bag_not_target args w v l Hscan Hbag); [|done].
    apply elem_of_dom. eauto. }
  unfold obj_at. rewrite Hfree. simpl.
  by rewrite merge_fields_self, merge_fields_empty.
Qed.

(** Every own field of the error a call returns, for a call whose last bag
    does not own the key [__proto__]. *)
Lemma final_object_field args w v key :
  scan w 0 args init_vars = inr v →
  last_bag_fields w args !! "__proto__" = None →
  fields (final_object message toIdentifier v w) !! key
  = decorated_field
      (resolve_ctor message toIdentifier (resolve_status message (status v)))
      (resolve_status message (status v))
      (last_bag_fields w args)
      (start_object message toIdentifier v w) key.
Proof.
  intros Hscan Hnoproto.
  rewrite (final_object_merge args w v Hscan), merge_fields_lookup.
  rewrite decorate_obj_field. unfold decorated_field. rewrite lookup_empty.
  destruct (String.eqb_spec key "status") as [->|H1]; [done|].
  destruct (String.eqb_spec key "statusCode") as [->|H2]; [done|].
  rewrite (bool_decide_true _ H1), (bool_decide_true _ H2). simpl.
  destruct (decide (key = "__proto__")) as [->|H3].
  - by rewrite Hnoproto.
  - rewrite (bool_decide_true _ H3). by destruct (last_bag_fields w args !! key).
Qed.

End Final.

(** ** The error object a call is given *)

Section ExistingError.

Variable message : gmap Z string.
Variable toIdentifier : string → string.


End ExistingError.



(** The call of the witness, run: the error at 2 is returned with its status
    403 on both fields, [expose] as the bag sets it, and the bag's [code]. *)
Example existing_error_decorated :
  createError statuses toidentifier
    [VObj 2%positive; VStr "again"; VObj 3%positive] world_mixed
  = Ok 2%positive
      (World (<[2%positive :=
                  Obj CError {[ "message" := VStr "denied"; "status" := VNum (Int 403);
                                "statusCode" := VNum (Int 403);
                                "expose" := VBool false; "code" := VStr "X" ]}]>
                (heap world_mixed)) []).
Proof. vm_compute. reflexivity. Qed.

(** ** Replacing the bag *)

Section Replace.

Variables (w : world) (b : loc) (o o' : object).
Hypothesis bag_in_heap : heap w !! b = Some o.
Hypothesis bag_not_error : instanceof o CError = false.
Hypothesis same_proto : proto o' = proto o.

Lemma obj_at_with_object_ne l : l ≠ b → obj_at (with_object b o' w) l = obj_at w l.
Proof. intros Hl. unfold with_object, obj_at; simpl. by rewrite lookup_insert_ne. Qed.

Lemma obj_at_with_object_eq : obj_at (with_object b o' w) b = o'.
Proof. unfold with_object, obj_at; simpl. by rewrite lookup_insert_eq. Qed.

Lemma obj_at_bag : obj_at w b = o.
Proof. unfold obj_at. by rewrite bag_in_heap. Qed.

Lemma instanceof_with_object l C :
  instanceof (obj_at (with_object b o' w) l) C = instanceof (obj_at w l) C.
Proof.
  destruct (decide (l = b)) as [->|Hl].
  - rewrite obj_at_with_object_eq, obj_at_bag. unfold instanceof. by rewrite same_proto.
  - by rewrite obj_at_with_object_ne.
Qed.

Lemma scan_arg_with_object i a v :
  scan_arg (with_object b o' w) i a v = scan_arg w i a v.
Proof.
  destruct a; try done.
  rewrite !scan_arg_VObj, instanceof_with_object.
  destruct (instanceof (obj_at w l) CError) eqn:Hinst; [|done].
  rewrite obj_at_with_object_ne; [done|].
  intros ->. rewrite obj_at_bag in Hinst. congruence.
Qed.

Lemma scan_with_object args : ∀ k v,
  scan (with_object b o' w) k args v = scan w k args v.
Proof.
  induction args as [|a args IH]; intros k v; [done|].
  simpl. rewrite scan_arg_with_object. destruct (scan_arg w k a v); [done|]. apply IH.
Qed.

Lemma dom_with_object : dom (heap (with_object b o' w)) = dom (heap w).
Proof.
  unfold with_object; simpl. rewrite dom_insert_L.
  apply subseteq_union_1_L, singleton_subseteq_l, elem_of_dom. eauto.
Qed.

Lemma target_with_object v : target v (with_object b o' w) = target v w.
Proof. unfold target. by rewrite dom_with_object. Qed.

End Replace.

(** ** Merging the property bag *)

Section Merge.

Variable message : gmap Z string.
Variable toIdentifier : string → string.

(** C5, as the code has it. For the last property bag of a call (the one the
    scan retains), when it does not own the key [__proto__]: every own key
    other than [status] and [statusCode] is on the returned error as an own
    field with the value the bag gives it; and the returned error is the
    same, field for field, whatever the bag holds or lacks under [status] and
    [statusCode]. *)
Theorem last_bag_merged (args : list value) (w : world) (b : loc) (o : object) :
  (∀ i a, args !! i = Some a → supported i a = true) →
  last_bag w args = Some (VObj b) →
  heap w !! b = Some o →
  fields o !! "__proto__" = None →
  ∃ l w', createError message toIdentifier args w = Ok l w'
          ∧ (∀ key val,
               key ≠ "status" → key ≠ "statusCode" →
               fields o !! key = Some val →
               fields (obj_at w' l) !! key = Some val)
          ∧ (∀ o',
               proto o' = proto o →
               (∀ key, key ≠ "status" → key ≠ "statusCode" →
                       fields o' !! key = fields o !! key) →
               ∃ w'', createError message toIdentifier args (with_object b o' w) = Ok l w''
                      ∧ obj_at w'' l = obj_at w' l).
Proof.
  intros Hsup Hbag Hb Hnoproto.
  destruct (scan_all_supported args w 0 init_vars Hsup) as [v Hscan].
  destruct (createError_final message toIdentifier args w v Hscan)
    as (w' & Hc & Hobj & _ & _).
  assert (Hdom : b ∈ dom (heap w)) by (apply elem_of_dom; eauto).
  assert (Hne : b ≠ target v w) by (by apply (bag_not_target args w v b)).
  assert (Hprops : props v = BagArg (VObj b)) by (by apply (scan_props_last args w)).
  assert (Hob : obj_at w b = o) by (unfold obj_at; by rewrite Hb).
  assert (Hnoterr : instanceof o CError = false).
  { rewrite <- Hob. by apply (last_bag_not_error w args). }
  exists (target v w), w'. split; [done|]. split.
  - intros key val H1 H2 Hkey. rewrite Hobj. unfold final_object. simpl.
    rewrite Hprops, bool_decide_false by done. rewrite Hob.
    apply merge_fields_copied; [done..| |done]. congruence.
  - intros o' Hproto Hsame.
    assert (Hscan' : scan (with_object b o' w) 0 args init_vars = inr v).
    { by rewrite (scan_with_object w b o o' Hb Hnoterr Hproto). }
    destruct (createError_final message toIdentifier args _ v Hscan')
      as (w'' & Hc' & Hobj' & _ & _).
    rewrite (target_with_object w b o o' Hb) in Hc', Hobj'.
    exists w''. split; [done|]. rewrite Hobj, Hobj'.
    unfold final_object. rewrite (target_with_object w b o o' Hb).
    assert (Hstart : start_object message toIdentifier v (with_object b o' w)
                     = start_object message toIdentifier v w).
    { unfold start_object. destruct (err v) as [e|] eqn:He; [|done].
      apply obj_at_with_object_ne. intros ->. apply Hne.
      unfold target. by rewrite He. }
    rewrite Hstart, Hprops, bool_decide_false by done.
    rewrite obj_at_with_object_eq, Hob.
    unfold merge_obj. f_equal. apply map_eq. intros key.
    rewrite !merge_fields_lookup.
    destruct (bool_decide_reflect (key ≠ "status")) as [H1|]; [|done].
    destruct (bool_decide_reflect (key ≠ "statusCode")) as [H2|]; [|done].
    simpl. by rewrite Hsame.
Qed.

End Merge.

(** C5 as stated fails for a bag that is not the last one of the call: its
    own key [code] is not copied onto the returned error. *)
Lemma earlier_bag_dropped_counterexample :
  bag_value world_two_bags (VObj 1%positive) = Some (VObj 1%positive)
  ∧ fields (obj_at world_two_bags 1%positive) !! "code" = Some (VStr "X")
  ∧ result_loc (createError statuses toidentifier
                  [VNum (Int 404); VObj 1%positive; VObj 2%positive] world_two_bags)
    = Some 3%positive
  ∧ result_field (createError statuses toidentifier
                    [VNum (Int 404); VObj 1%positive; VObj 2%positive] world_two_bags)
      "code" = None.
Proof. repeat split; vm_compute; reflexivity. Qed.

Lemma last_bag_merged_witness :
  ∃ l w', createError statuses toidentifier [VNum (Int 404); VObj 1%positive]
            world_two_bags = Ok l w'
          ∧ (∀ key val,
               key ≠ "status" → key ≠ "statusCode" →
               fields (Obj CObject {[ "code" := VStr "X"; "status" := VNum (Int 403) ]})
                 !! key = Some val →
               fields (obj_at w' l) !! key = Some val)
          ∧ (∀ o',
               proto o' = proto (Obj CObject {[ "code" := VStr "X";
                                                "status" := VNum (Int 403) ]}) →
               (∀ key, key ≠ "status" → key ≠ "statusCode" →
                       fields o' !! key
                       = fields (Obj CObject {[ "code" := VStr "X";
                                                "status" := VNum (Int 403) ]}) !! key) →
               ∃ w'', createError statuses toidentifier [VNum (Int 404); VObj 1%positive]
                        (with_object 1%positive o' world_two_bags) = Ok l w''
                      ∧ obj_at w'' l = obj_at w' l).
Proof.
  apply (last_bag_merged statuses toidentifier [VNum (Int 404); VObj 1%positive]
           world_two_bags 1%positive).
  - intros [|[|i]] a Ha; simpl in Ha; try discriminate; by injection Ha as <-.
  - vm_compute. reflexivity.
  - vm_compute. reflexivity.
  - vm_compute. reflexivity.
Defined.

(** ** Recognizing errors *)

Lemma instanceof_proto o1 o2 C :
  proto o1 = proto o2 → instanceof o1 C = instanceof o2 C.
Proof. unfold instanceof. by intros ->. Qed.

Lemma generic_not_HttpError H s o :
  instanceof o CHttpError = false → generic H s o = true.
Proof.
  intros Hnot. unfold generic. destruct H as [C|]; [|done].
  destruct (instanceof o (CCtor C)) eqn:Hinst; [|done].
  apply instanceof_ctor_HttpError in Hinst. congruence.
Qed.

Lemma isHttpError_instance l w :
  instanceof (obj_at w l) CHttpError = true → isHttpError (VObj l) w = true.
Proof. unfold isHttpError. simpl. by intros ->. Qed.

Lemma isHttpError_duck l w b n :
  instanceof (obj_at w l) CError = true →
  fields (obj_at w l) !! "expose" = Some (VBool b) →
  fields (obj_at w l) !! "statusCode" = Some (VNum n) →
  fields (obj_at w l) !! "status" = Some (VNum n) →
  n ≠ NaN →
  isHttpError (VObj l) w = true.
Proof.
  intros Herr Hexp Hcode Hst Hn. unfold isHttpError. simpl.
  destruct (instanceof (obj_at w l) CHttpError); [done|].
  rewrite Herr, (get_own _ _ _ Hexp), (get_own _ _ _ Hcode), (get_own _ _ _ Hst).
  simpl. by apply strict_eq_refl_num.
Qed.

Section Status.

Variable message : gmap Z string.
Variable toIdentifier : string → string.

Lemma js_or_not_NaN a b : b ≠ VNum NaN → js_or a b ≠ VNum NaN.
Proof.
  intros Hb. unfold js_or. destruct (truthy a) eqn:Ha; [|done].
  intros ->. discriminate.
Qed.

Lemma scan_arg_status_not_NaN w i a v v' :
  scan_arg w i a v = inr v' →
  a ≠ VNum NaN → status v ≠ VNum NaN → status v' ≠ VNum NaN.
Proof.
  unfold scan_arg. intros Harg Ha Hv.
  destruct a; simpl in Harg; try discriminate.
  - by injection Harg as <-.
  - destruct (bool_decide (i = 0%nat)); [|discriminate]. by injection Harg as <-.
  - by injection Harg as <-.
  - destruct (instanceof (obj_at w l) CError); injection Harg as <-; [|done].
    simpl. by apply js_or_not_NaN, js_or_not_NaN.
Qed.

Lemma scan_status_not_NaN args : ∀ w k v v',
  scan w k args v = inr v' →
  VNum NaN ∉ args → status v ≠ VNum NaN → status v' ≠ VNum NaN.
Proof.
  induction args as [|a args IH]; intros w k v v' Hscan Hno Hv.
  - by injection Hscan as <-.
  - simpl in Hscan. destruct (scan_arg w k a v) as [|v1] eqn:Harg; [done|].
    apply not_elem_of_cons in Hno as [Ha Hno].
    apply (IH w (S k) v1 v' Hscan Hno).
    by apply (scan_arg_status_not_NaN w k a v v1).
Qed.

Lemma resolve_status_not_NaN st :
  st ≠ VNum NaN → resolve_status message st ≠ NaN.
Proof.
  intros Hst. unfold resolve_status. destruct st; try done.
  destruct (_ && _); [done|]. congruence.
Qed.

Lemma start_object_is_error args w v :
  scan w 0 args init_vars = inr v →
  instanceof (start_object message toIdentifier v w) CError = true.
Proof.
  intros Hscan. unfold start_object.
  destruct (err v) as [e|] eqn:He.
  - by apply (scan_err_in_heap args w v e).
  - unfold fresh_instance. by destruct (resolve_ctor _ _ _).
Qed.

End Status.

Section Recognition.

Variable message : gmap Z string.
Variable toIdentifier : string → string.

Lemma final_object_proto v w :
  proto (final_object message toIdentifier v w)
  = proto (start_object message toIdentifier v w).
Proof. unfold final_object. by rewrite merge_obj_proto, decorate_obj_proto. Qed.

Lemma not_HttpError_not_settled H s o :
  instanceof o CHttpError = false → settled H s o = false.
Proof.
  intros Hnot. unfold settled, instance_of_found. destruct H as [C|]; [|done].
  destruct (instanceof o (CCtor C)) eqn:Hinst; [|done].
  apply instanceof_ctor_HttpError in Hinst. congruence.
Qed.

(** C4, as the code has it. [isHttpError] is false for every value that is
    not an object and for [null]; false for every object that is not an
    [Error] (plain objects); true for an [Error] that carries
    [expose: true, status: 404, statusCode: 404], instance of the base class
    or not; and the value of a factory call is recognized exactly when it is
    an instance of the base class or the last property bag of the call has no
    [expose] other than a boolean. The last part is for calls that hold no
    NaN and whose last bag does not own the key [__proto__]. *)
Theorem isHttpError_recognizes (w : world) :
  (∀ val, typeof val ≠ "object" ∨ val = VNull → isHttpError val w = false)
  ∧ (∀ l, instanceof (obj_at w l) CError = false → isHttpError (VObj l) w = false)
  ∧ (∀ l,
       instanceof (obj_at w l) CError = true →
       fields (obj_at w l) !! "expose" = Some (VBool true) →
       fields (obj_at w l) !! "status" = Some (VNum (Int 404)) →
       fields (obj_at w l) !! "statusCode" = Some (VNum (Int 404)) →
       isHttpError (VObj l) w = true)
  ∧ (∀ args l w',
       createError message toIdentifier args w = Ok l w' →
       VNum NaN ∉ args →
       last_bag_fields w args !! "__proto__" = None →
       (isHttpError (VObj l) w' = true
        ↔ instanceof (obj_at w' l) CHttpError = true
          ∨ ∀ x, last_bag_fields w args !! "expose" = Some x → typeof x = "boolean")).
Proof.
  split; [|split; [|split]].
  - intros val [Hty| ->]; [|done]. unfold isHttpError.
    destruct val; try done; by destruct (_ || _).
  - intros l Hnot. unfold isHttpError. simpl.
    destruct (instanceof (obj_at w l) CHttpError) eqn:Hinst.
    + apply instanceof_HttpError_Error in Hinst. congruence.
    + by rewrite Hnot.
  - intros l Herr Hexp Hst Hcode. by apply (isHttpError_duck l w true (Int 404)).
  - intros args l w' Hcall Hno Hnoproto.
    unfold createError in Hcall.
    destruct (scan w 0 args init_vars) as [|v] eqn:Hscan; [done|].
    destruct (createError_final message toIdentifier args w v Hscan)
      as (w1 & Hc & Hobj & _ & _).
    unfold createError in Hc. rewrite Hscan, Hcall in Hc. injection Hc as -> ->.
    destruct (instanceof (obj_at w1 (target v w)) CHttpError) eqn:Hinst.
    { split; [by left|]. intros _. by apply isHttpError_instance. }
    assert (Hset : settled (resolve_ctor message toIdentifier
                              (resolve_status message (status v)))
                     (resolve_status message (status v))
                     (start_object message toIdentifier v w) = false).
    { apply not_HttpError_not_settled. rewrite <- Hinst, Hobj.
      symmetry. apply instanceof_proto, final_object_proto. }
    pose proof (λ key, final_object_field message toIdentifier args w v key
                         Hscan Hnoproto) as Hfield.
    rewrite <- Hobj in Hfield. unfold decorated_field in Hfield. rewrite Hset in Hfield.
    pose proof (Hfield "status") as Hst.
    pose proof (Hfield "statusCode") as Hcode.
    pose proof (Hfield "expose") as Hexp.
    simpl in Hst, Hcode, Hexp. clear Hfield.
    assert (Herr : instanceof (obj_at w1 (target v w)) CError = true).
    { rewrite Hobj, (instanceof_proto _ _ _ (final_object_proto v w)).
      by apply (start_object_is_error message toIdentifier args). }
    assert (Hs : resolve_status message (status v) ≠ NaN).
    { apply resolve_status_not_NaN.
      by apply (scan_status_not_NaN args w 0 init_vars v Hscan Hno). }
    split.
    + intros Hrec. right. intros x Hx. rewrite Hx in Hexp.
      unfold isHttpError in Hrec. simpl in Hrec. rewrite Hinst, Herr in Hrec.
      rewrite (get_own _ _ _ Hexp) in Hrec. simpl in Hrec.
      apply andb_true_iff in Hrec as [Hrec _].
      apply andb_true_iff in Hrec as [Hrec _].
      by apply String.eqb_eq in Hrec.
    + intros [Hcontra|Hbag]; [done|].
      destruct (last_bag_fields w args !! "expose") as [x|] eqn:Hx.
      * specialize (Hbag x eq_refl). destruct x; try discriminate.
        by apply (isHttpError_duck _ _ _ _ Herr Hexp Hcode Hst).
      * by apply (isHttpError_duck _ _ _ _ Herr Hexp Hcode Hst).
Qed.

End Recognition.

(** C4 as stated fails: the error [createError(err, { expose: 'no' })]
    returns is not recognized. *)
Lemma factory_value_unrecognized_counterexample :
  result_loc (createError statuses toidentifier [VObj 1%positive; VObj 2%positive]
                world_expose_string) = Some 1%positive
  ∧ result_isHttpError (createError statuses toidentifier
                          [VObj 1%positive; VObj 2%positive] world_expose_string)
    = Some false.
Proof. split; vm_compute; reflexivity. Qed.

(** [createError(404, { expose: 'no' })] is recognized: it returns an
    instance of the base class, whatever the bag makes of [expose]. *)
Lemma isHttpError_recognizes_witness :
  result_isHttpError (createError statuses toidentifier
                        [VNum (Int 404); VObj 2%positive] world_expose_string)
  = Some true.
Proof.
  destruct (createError statuses toidentifier [VNum (Int 404); VObj 2%positive]
              world_expose_string) as [l w'|e] eqn:Hcall;
    [|vm_compute in Hcall; discriminate].
  simpl. f_equal.
  apply (proj2 (proj2 (proj2 (isHttpError_recognizes statuses toidentifier
                                world_expose_string)))
           [VNum (Int 404); VObj 2%positive] l w' Hcall).
  - intros Hin. repeat (apply elem_of_cons in Hin as [Hin|Hin]; [discriminate|]).
    by apply elem_of_nil in Hin.
  - vm_compute. reflexivity.
  - left. vm_compute in Hcall. injection Hcall as <- <-. vm_compute. reflexivity.
Defined.

(** ** The equality of [status] and [statusCode] *)

Lemma get_status_key o : get o "status" = default VUndefined (fields o !! "status").
Proof.
  unfold get. destruct (fields o !! "status"); [done|].
  simpl. by destruct (instanceof o CError).
Qed.

Lemma get_statusCode_key o :
  get o "statusCode" = default VUndefined (fields o !! "statusCode").
Proof.
  unfold get. destruct (fields o !! "statusCode"); [done|].
  simpl. by destruct (instanceof o CError).
Qed.

Lemma strict_eq_refl v : v ≠ VNum NaN → strict_eq v v = true.
Proof.
  intros Hv. destruct v as [| |?|[]|?|?|?|?|?]; simpl; try done;
    by apply bool_decide_eq_true.
Qed.

Lemma status_eq_set o v :
  fields o !! "status" = Some v → fields o !! "statusCode" = Some v →
  v ≠ VNum NaN → status_eq_statusCode o = true.
Proof.
  intros H1 H2 Hv. unfold status_eq_statusCode.
  rewrite get_status_key, get_statusCode_key, H1, H2. simpl.
  by apply strict_eq_refl.
Qed.

Lemma status_invariant_update w w' l :
  (∀ l', l' ≠ l → heap w' !! l' = heap w !! l') →
  status_eq_statusCode (obj_at w' l) = true →
  status_invariant w → status_invariant w'.
Proof.
  intros Hframe Hl Hinv l0 o Hl0 Hinst.
  destruct (decide (l0 = l)) as [->|Hne].
  - unfold obj_at in Hl. by rewrite Hl0 in Hl.
  - rewrite Hframe in Hl0 by done. by apply (Hinv l0).
Qed.

Section Invariant.

Variable message : gmap Z string.
Variable toIdentifier : string → string.

Lemma constructed_status_eq phrase C m :
  status_eq_statusCode (constructed phrase C m) = true.
Proof.
  apply (status_eq_set _ (VNum (Int (code C))));
    [apply constructed_status|apply constructed_statusCode|done].
Qed.

Lemma final_object_status v w :
  fields (final_object message toIdentifier v w) !! "status"
  = Some (VNum (resolve_status message (status v))).
Proof.
  unfold final_object. simpl. rewrite merge_fields_reserved by auto.
  apply decorate_obj_status.
Qed.

Lemma final_object_statusCode v w :
  fields (final_object message toIdentifier v w) !! "statusCode"
  = if settled (resolve_ctor message toIdentifier (resolve_status message (status v)))
         (resolve_status message (status v)) (start_object message toIdentifier v w)
    then fields (start_object message toIdentifier v w) !! "statusCode"
    else Some (VNum (resolve_status message (status v))).
Proof.
  unfold final_object. simpl. rewrite merge_fields_reserved by auto.
  by rewrite decorate_obj_field.
Qed.

(** The equality holds of the error returned unless the error is settled, in
    which case it is as it was on the error the decoration started from. *)
Lemma final_object_status_eq args w v :
  scan w 0 args init_vars = inr v →
  VNum NaN ∉ args →
  status_eq_statusCode (final_object message toIdentifier v w)
  = if settled (resolve_ctor message toIdentifier (resolve_status message (status v)))
         (resolve_status message (status v)) (start_object message toIdentifier v w)
    then status_eq_statusCode (start_object message toIdentifier v w)
    else true.
Proof.
  intros Hscan Hno.
  assert (Hs : resolve_status message (status v) ≠ NaN).
  { apply resolve_status_not_NaN.
    by apply (scan_status_not_NaN args w 0 init_vars v Hscan Hno). }
  unfold status_eq_statusCode.
  rewrite !get_status_key, !get_statusCode_key.
  rewrite final_object_status, final_object_statusCode.
  destruct (settled _ _ _) eqn:Hset.
  - by rewrite (settled_status _ _ _ Hset).
  - simpl. by apply strict_eq_refl_num.
Qed.

Lemma fresh_instance_status_eq v H s :
  settled H s (fresh_instance message toIdentifier v) = true →
  status_eq_statusCode (fresh_instance message toIdentifier v) = true.
Proof.
  unfold fresh_instance.
  destruct (resolve_ctor message toIdentifier (resolve_status message (status v)));
    [intros _; apply constructed_status_eq|].
  unfold settled, instance_of_found. destruct H as [C|]; [|done].
  intros Hset. apply andb_true_iff in Hset as [Hinst _].
  unfold instanceof, new_error_obj in Hinst. simpl in Hinst. discriminate Hinst.
Qed.

(** C9, as the code has it. An instance built by the base constructor (for a
    subclass) or by a synthesized class is new and has equal [status] and
    [statusCode] when it is returned. For a factory call that holds no NaN:
    an error the factory creates has them equal, whatever the heap holds; the
    error returned has them equal exactly when the error object the call was
    given, if it is settled (an instance of the class found whose [status] is
    the resolved one, which the factory returns untouched), had them equal
    before; every object that had them equal before the call has them equal
    after it; and so, if every [HttpError] of the heap has them equal before
    the call, the error returned and every [HttpError] of the heap have them
    equal after it. *)
Theorem status_equals_statusCode (w : world) :
  (∀ new_target st m l w',
     HttpError_constructor new_target st m w = Ok l w' →
     st ≠ VNum NaN →
     heap w !! l = None ∧ status_eq_statusCode (obj_at w' l) = true)
  ∧ (∀ C m, ∃ l w',
       construct message C m w = Ok l w'
       ∧ heap w !! l = None
       ∧ status_eq_statusCode (obj_at w' l) = true
       ∧ (∀ l0, l0 ≠ l → heap w' !! l0 = heap w !! l0)
       ∧ (status_invariant w → status_invariant w'))
  ∧ (∀ args l w',
       createError message toIdentifier args w = Ok l w' →
       VNum NaN ∉ args →
       (last_error w args = None →
        heap w !! l = None ∧ status_eq_statusCode (obj_at w' l) = true)
       ∧ (∃ s, fields (obj_at w' l) !! "status" = Some (VNum s)
               ∧ (status_eq_statusCode (obj_at w' l) = true
                  ↔ ∀ e, last_error w args = Some e →
                         settled (resolve_ctor message toIdentifier s) s (obj_at w e)
                         = true →
                         status_eq_statusCode (obj_at w e) = true))
       ∧ (∀ l0 o, heap w !! l0 = Some o →
                  status_eq_statusCode o = true →
                  status_eq_statusCode (obj_at w' l0) = true)
       ∧ (status_invariant w →
          status_eq_statusCode (obj_at w' l) = true ∧ status_invariant w')).
Proof.
  split; [|split].
  - intros new_target st m l w'. unfold HttpError_constructor, new_object.
    destruct (bool_decide (new_target = CHttpError)); [done|].
    simpl. rewrite !set_field_insert. intros [= <- <-] Hst.
    split; [apply fresh_not_in_heap|]. rewrite obj_at_insert.
    apply (status_eq_set _ st); simpl; [|by rewrite lookup_insert_ne, lookup_insert_eq|done].
    by rewrite lookup_insert_eq.
  - intros C m. rewrite construct_world. eexists _, _. split; [done|].
    split; [apply fresh_not_in_heap|].
    rewrite obj_at_insert. split; [apply constructed_status_eq|].
    split; [intros l0 Hl0; simpl; by rewrite lookup_insert_ne|].
    apply (status_invariant_update w _ (fresh (dom (heap w)))).
    + intros l' Hl'. simpl. by rewrite lookup_insert_ne.
    + rewrite obj_at_insert. apply constructed_status_eq.
  - intros args l w' Hcall Hno.
    unfold createError in Hcall.
    destruct (scan w 0 args init_vars) as [|v] eqn:Hscan; [done|].
    destruct (createError_final message toIdentifier args w v Hscan)
      as (w1 & Hc & Hobj & Hframe & _).
    unfold createError in Hc. rewrite Hscan, Hcall in Hc. injection Hc as -> ->.
    destruct (scan_retains args w 0 init_vars v Hscan) as (Herr & _ & _).
    simpl in Herr.
    pose proof (final_object_status_eq args w v Hscan Hno) as Heq.
    rewrite <- Hobj in Heq.
    set (s := resolve_status message (status v)) in *.
    set (H := resolve_ctor message toIdentifier s) in *.
    assert (Hnew : err v = None →
                   heap w !! target v w = None
                   ∧ status_eq_statusCode (obj_at w1 (target v w)) = true).
    { intros Hnone. unfold target. rewrite Hnone.
      split; [apply fresh_not_in_heap|].
      unfold target in Heq. rewrite Hnone in Heq. rewrite Heq.
      unfold start_object. rewrite Hnone.
      destruct (settled H s (fresh_instance message toIdentifier v)) eqn:Hset; [|done].
      by apply (fresh_instance_status_eq v H s). }
    assert (Hiff : status_eq_statusCode (obj_at w1 (target v w)) = true
                   ↔ ∀ e, last_error w args = Some e →
                          settled H s (obj_at w e) = true →
                          status_eq_statusCode (obj_at w e) = true).
    { destruct (last_error w args) as [e|] eqn:Hlast.
      - assert (Hstart : start_object message toIdentifier v w = obj_at w e).
        { unfold start_object. by rewrite Herr. }
        rewrite Heq, Hstart. split.
        + intros Hfin e' [= <-] Hset. by rewrite Hset in Hfin.
        + intros Hall. destruct (settled H s (obj_at w e)) eqn:Hset; [|done].
          by apply Hall.
      - split; [by intros _ e He|]. intros _. by apply Hnew. }
    assert (Hkeep : ∀ l0 o, heap w !! l0 = Some o →
                            status_eq_statusCode o = true →
                            status_eq_statusCode (obj_at w1 l0) = true).
    { intros l0 o Hl0 Ho.
      destruct (decide (l0 = target v w)) as [->|Hne].
      - destruct (err v) as [e|] eqn:He.
        + rewrite Heq. unfold start_object, target in *. rewrite He in *.
          assert (Hat : obj_at w e = o) by (unfold obj_at; by rewrite Hl0).
          rewrite Hat. by destruct (settled H s o).
        + destruct (Hnew eq_refl) as [Hfree _]. congruence.
      - unfold obj_at. rewrite Hframe by done. by rewrite Hl0. }
    split; [|split; [|split]].
    + intros Hnone. apply Hnew. by rewrite Hnone in Herr.
    + exists s. split; [|exact Hiff].
      rewrite Hobj. apply final_object_status.
    + exact Hkeep.
    + intros Hinv.
      assert (Hres : status_eq_statusCode (obj_at w1 (target v w)) = true).
      { apply Hiff. intros e Hlast Hset.
        destruct (last_error_is_error w args e Hlast) as [_ Hdom].
        apply elem_of_dom in Hdom as [o Ho].
        unfold obj_at in *. rewrite Ho in *. simpl in *.
        apply (Hinv e o Ho).
        unfold settled, instance_of_found in Hset. destruct H as [C|]; [|done].
        apply andb_true_iff in Hset as [Hinst _].
        by apply (instanceof_ctor_HttpError _ C). }
      split; [done|]. by apply (status_invariant_update w w1 (target v w)).
Qed.

End Invariant.

(** C9 as stated fails on the decorate-existing-error path: an instance of the
    class of 404 whose [statusCode] was changed is returned as it is, with
    [status] 404 and [statusCode] 500. *)
Lemma tampered_instance_counterexample :
  result_loc (createError statuses toidentifier [VObj 1%positive] world_tampered)
  = Some 1%positive
  ∧ result_get (createError statuses toidentifier [VObj 1%positive] world_tampered)
      "status" = Some (VNum (Int 404))
  ∧ result_get (createError statuses toidentifier [VObj 1%positive] world_tampered)
      "statusCode" = Some (VNum (Int 500))
  ∧ result_status_eq (createError statuses toidentifier [VObj 1%positive] world_tampered)
    = Some false.
Proof. repeat split; vm_compute; reflexivity. Qed.

(** In a heap that holds the tampered instance, a plain [Error] passed with a
    bag comes back with equal [status] and [statusCode]. *)
Lemma status_equals_statusCode_witness :
  result_status_eq (createError statuses toidentifier [VObj 2%positive; VObj 3%positive]
                      world_mixed) = Some true.
Proof.
  destruct (createError statuses toidentifier [VObj 2%positive; VObj 3%positive]
              world_mixed) as [l w'|e] eqn:Hcall; [|vm_compute in Hcall; discriminate].
  simpl. f_equal.
  destruct (proj2 (proj2 (status_equals_statusCode statuses toidentifier world_mixed))
              [VObj 2%positive; VObj 3%positive] l w' Hcall) as (_ & (s & _ & Hiff) & _).
  - intros Hin. repeat (apply elem_of_cons in Hin as [Hin|Hin]; [discriminate|]).
    by apply elem_of_nil in Hin.
  - apply Hiff. intros e He Hset. vm_compute in He. injection He as <-.
    unfold settled, instance_of_found in Hset.
    destruct (resolve_ctor statuses toidentifier s) as [C|]; [|discriminate].
    vm_compute in Hset. discriminate.
Defined.

(** ** Passing a returned error back through the factory *)

Lemma object_eta o : Obj (proto o) (fields o) = o.
Proof. by destruct o. Qed.

Lemma merge_obj_empty o : merge_obj ∅ o = o.
Proof. unfold merge_obj. rewrite merge_fields_empty. by destruct o. Qed.

Section Again.

Variable message : gmap Z string.
Variable toIdentifier : string → string.

Lemma resolve_status_500 : resolve_status message (VNum (Int 500)) = Int 500.
Proof.
  unfold resolve_status.
  match goal with |- (if ?c then _ else _) = _ => by destruct c end.
Qed.

Lemma resolve_status_idem st :
  resolve_status message (VNum (resolve_status message st)) = resolve_status message st.
Proof.
  destruct st; try apply resolve_status_500.
  unfold resolve_status at 2 3.
  destruct (negb _ && _) eqn:Hc; [apply resolve_status_500|].
  unfold resolve_status. by rewrite Hc.
Qed.

Lemma resolve_status_nonzero st :
  falls_back message (VNum (Int 0)) = true → resolve_status message st ≠ Int 0.
Proof.
  unfold falls_back, resolve_status. destruct st; try done.
  intros H0. match goal with |- (if ?c then _ else _) ≠ _ => destruct c eqn:Hc end;
    [done|]. intros ->. congruence.
Qed.

Lemma truthy_num s : s ≠ NaN → s ≠ Int 0 → truthy (VNum s) = true.
Proof.
  intros H1 H2. destruct s; try done. simpl.
  apply negb_true_iff, Z.eqb_neq. congruence.
Qed.

(** C8, as the code has it. Passing an error the factory returned back
    through the factory, alone, returns that same object, allocates nothing
    and touches nothing else; every own field other than [expose] ([status],
    [statusCode] and [message] among them) keeps its value. When the error is
    an instance of the class found for its status, it is left exactly as it
    was, [expose] included; when it is not, [expose] is set to
    [status < 500], which changes the error only if the last property bag of
    the first call had an [expose] key. The statement is for a first call
    that holds no NaN and whose last bag does not own the key [__proto__],
    over a registry that does not know the code 0. *)
Theorem factory_again (args : list value) (w : world) (l : loc) (w1 : world) :
  createError message toIdentifier args w = Ok l w1 →
  VNum NaN ∉ args →
  last_bag_fields w args !! "__proto__" = None →
  falls_back message (VNum (Int 0)) = true →
  ∃ w2 s,
    createError message toIdentifier [VObj l] w1 = Ok l w2
    ∧ dom (heap w2) = dom (heap w1)
    ∧ (∀ l', l' ≠ l → heap w2 !! l' = heap w1 !! l')
    ∧ proto (obj_at w2 l) = proto (obj_at w1 l)
    ∧ fields (obj_at w1 l) !! "status" = Some (VNum s)
    ∧ (∀ key, key ≠ "expose" →
              fields (obj_at w2 l) !! key = fields (obj_at w1 l) !! key)
    ∧ (instance_of_found (resolve_ctor message toIdentifier s) (obj_at w1 l) = true →
       obj_at w2 l = obj_at w1 l)
    ∧ (instance_of_found (resolve_ctor message toIdentifier s) (obj_at w1 l) = false →
       fields (obj_at w2 l) !! "expose" = Some (VBool (num_lt s 500)))
    ∧ (last_bag_fields w args !! "expose" = None → obj_at w2 l = obj_at w1 l).
Proof.
  intros Hcall Hno Hnoproto Hzero.
  unfold createError in Hcall.
  destruct (scan w 0 args init_vars) as [|v] eqn:Hscan; [done|].
  destruct (createError_final message toIdentifier args w v Hscan)
    as (w1' & Hc & Hobj & _ & Hdom).
  unfold createError in Hc. rewrite Hscan, Hcall in Hc. injection Hc as -> ->.
  pose proof (λ key, final_object_field message toIdentifier args w v key
                       Hscan Hnoproto) as Hfield.
  set (s := resolve_status message (status v)) in *.
  set (H := resolve_ctor message toIdentifier s) in *.
  set (l := target v w) in *.
  set (o0 := start_object message toIdentifier v w) in *.
  set (o1 := final_object message toIdentifier v w) in *.
  assert (Hst : fields o1 !! "status" = Some (VNum s)) by apply final_object_status.
  assert (Hproto : proto o1 = proto o0) by apply final_object_proto.
  assert (Herr : instanceof o1 CError = true).
  { rewrite (instanceof_proto _ _ _ Hproto).
    by apply (start_object_is_error message toIdentifier args). }
  assert (Hs : s ≠ NaN).
  { apply resolve_status_not_NaN.
    by apply (scan_status_not_NaN args w 0 init_vars v Hscan Hno). }
  assert (Hs0 : s ≠ Int 0) by (by apply resolve_status_nonzero).
  assert (Hset1 : settled H s o1 = instance_of_found H o1).
  { unfold settled. rewrite (get_own _ _ _ Hst), strict_eq_refl_num by done.
    apply andb_true_r. }
  assert (Hset0 : settled H s o1 = false → settled H s o0 = false).
  { rewrite Hset1. unfold settled, instance_of_found. destruct H as [C|]; [|done].
    rewrite (instanceof_proto _ _ _ Hproto). by intros ->. }
  assert (Hscan2 : scan w1' 0 [VObj l] init_vars
                   = inr (Vars (Some l) None (VNum s) BagLiteral)).
  { simpl. rewrite scan_arg_VObj, Hobj, Herr. simpl. rewrite (get_own _ _ _ Hst).
    unfold js_or. by rewrite truthy_num. }
  destruct (createError_final message toIdentifier [VObj l] w1' _ Hscan2)
    as (w2 & Hc2 & Hobj2 & Hframe2 & Hdom2).
  assert (Hfinal2 : obj_at w2 l = decorate_obj H s o1).
  { change (target (Vars (Some l) None (VNum s) BagLiteral) w1') with l in Hobj2.
    assert (Hidem : resolve_status message (VNum s) = s)
      by apply resolve_status_idem.
    rewrite Hobj2. unfold final_object, start_object. cbn [status err msg props].
    rewrite Hidem. fold H. by rewrite merge_obj_empty, Hobj. }
  assert (Hfield2 : ∀ key, fields (obj_at w2 l) !! key = decorated_field H s ∅ o1 key).
  { intros key. rewrite Hfinal2. apply decorate_obj_field. }
  assert (Hsame : settled H s o1 = true → obj_at w2 l = o1).
  { intros Hset. rewrite Hfinal2. unfold decorate_obj.
    by rewrite generic_settled, Hset. }
  assert (Hcode : settled H s o1 = false →
                  fields o1 !! "statusCode" = Some (VNum s)).
  { intros Hset. rewrite (Hfield "statusCode"). unfold decorated_field. simpl.
    by rewrite (Hset0 Hset). }
  exists w2, s. split; [exact Hc2|].
  split.
  { change (target (Vars (Some l) None (VNum s) BagLiteral) w1') with l in Hdom2.
    rewrite Hdom2, Hdom.
    apply subseteq_union_1_L, singleton_subseteq_l, elem_of_union_l.
    by apply elem_of_singleton. }
  split; [exact Hframe2|].
  rewrite Hobj. fold H.
  split; [rewrite Hfinal2; apply decorate_obj_proto|]. split; [exact Hst|].
  split; [|split; [|split]].
  - intros key Hkey. destruct (settled H s o1) eqn:Hset; [by rewrite Hsame|].
    rewrite Hfield2. unfold decorated_field. rewrite Hset, lookup_empty.
    destruct (String.eqb_spec key "status") as [->|H1]; [done|].
    destruct (String.eqb_spec key "statusCode") as [->|H2]; [by rewrite Hcode|].
    by destruct (String.eqb_spec key "expose").
  - rewrite <- Hset1. exact Hsame.
  - rewrite <- Hset1. intros Hset. rewrite Hfield2. unfold decorated_field.
    by rewrite Hset.
  - intros Hnone. destruct (settled H s o1) eqn:Hset; [by apply Hsame|].
    rewrite Hfinal2. unfold decorate_obj. rewrite generic_settled, Hset. simpl.
    assert (Hexp : fields o1 !! "expose" = Some (VBool (num_lt s 500))).
    { rewrite (Hfield "expose"). unfold decorated_field. simpl.
      by rewrite Hnone, (Hset0 eq_refl). }
    rewrite (insert_id (fields o1) "expose") by done.
    rewrite (insert_id (fields o1) "statusCode") by exact (Hcode eq_refl).
    rewrite (insert_id (fields o1) "status") by done.
    exact (object_eta o1).
Qed.

End Again.

(** C8 as stated fails: the error [createError(err, { expose: true })]
    returns has [expose] true, and passing it back through the factory sets
    its [expose] to false. *)
Lemma expose_reset_counterexample :
  result_get (createError statuses toidentifier [VObj 1%positive; VObj 2%positive]
                world_expose_true) "expose" = Some (VBool true)
  ∧ result_get (again statuses toidentifier
                  (createError statuses toidentifier [VObj 1%positive; VObj 2%positive]
                     world_expose_true)) "expose" = Some (VBool false).
Proof. split; vm_compute; reflexivity. Qed.

(** [createError(404, { code: 'X', expose: false, status: 1 })] returns an
    instance of the class of 404 whose [expose] is false; passed back, it is
    left as it is. *)
Lemma factory_again_witness :
  match createError statuses toidentifier [VNum (Int 404); VObj 3%positive] world_mixed with
  | Ok l w1 =>
      ∃ w2 s,
        createError statuses toidentifier [VObj l] w1 = Ok l w2
        ∧ dom (heap w2) = dom (heap w1)
        ∧ (∀ l', l' ≠ l → heap w2 !! l' = heap w1 !! l')
        ∧ proto (obj_at w2 l) = proto (obj_at w1 l)
        ∧ fields (obj_at w1 l) !! "status" = Some (VNum s)
        ∧ (∀ key, key ≠ "expose" →
                  fields (obj_at w2 l) !! key = fields (obj_at w1 l) !! key)
        ∧ (instance_of_found (resolve_ctor statuses toidentifier s) (obj_at w1 l) = true →
           obj_at w2 l = obj_at w1 l)
        ∧ (instance_of_found (resolve_ctor statuses toidentifier s) (obj_at w1 l) = false →
           fields (obj_at w2 l) !! "expose" = Some (VBool (num_lt s 500)))
        ∧ (last_bag_fields world_mixed [VNum (Int 404); VObj 3%positive] !! "expose"
           = None →
           obj_at w2 l = obj_at w1 l)
  | Throw _ => False
  end.
Proof.
  destruct (createError statuses toidentifier [VNum (Int 404); VObj 3%positive] world_mixed)
    as [l w1|e] eqn:Hcall; [|vm_compute in Hcall; discriminate].
  apply (factory_again statuses toidentifier [VNum (Int 404); VObj 3%positive]
           world_mixed l w1 Hcall).
  - intros Hin. repeat (apply elem_of_cons in Hin as [Hin|Hin]; [discriminate|]).
    by apply elem_of_nil in Hin.
  - vm_compute. reflexivity.
  - vm_compute. reflexivity.
Defined.

(** The two calls of the witness, run: [expose] is false after each. *)
Example settled_instance_kept :
  result_get (createError statuses toidentifier [VNum (Int 404); VObj 3%positive]
                world_mixed) "expose" = Some (VBool false)
  ∧ result_get (again statuses toidentifier
                  (createError statuses toidentifier [VNum (Int 404); VObj 3%positive]
                     world_mixed)) "expose" = Some (VBool false).
Proof. split; vm_compute; reflexivity. Qed.

(** * Further properties of the module *)

(** ** [codeClass] reads the leading digit *)

(** On three-digit codes [codeClass] is the hundred of the code; on shorter
    codes it is still built from the leading digit, so that 42 has class 400
    and 5 has class 500; a negative number has class 0. *)
Theorem codeClass_leading_digit (c : Z) :
  (100 ≤ c < 1000 → codeClass (Int c) = Int (c / 100 * 100))
  ∧ (1 ≤ c < 10 → codeClass (Int c) = Int (c * 100))
  ∧ (10 ≤ c < 100 → codeClass (Int c) = Int (c / 10 * 100))
  ∧ (c < 0 → codeClass (Int c) = Int 0).
Proof.
  assert (Hrange : ∀ (f : Z → Z) lo n,
            forallb (fun c => bool_decide (codeClass (Int c) = Int (f c))) (seqZ lo n) = true →
            lo ≤ c < lo + n → codeClass (Int c) = Int (f c)).
  { intros f lo n Hall Hc. rewrite forallb_forall in Hall.
    eapply bool_decide_eq_true_1, Hall, list_elem_of_In, elem_of_seqZ. lia. }
  split; [|split; [|split]].
  - intros Hc. apply (Hrange (fun c => c / 100 * 100) 100 900); [|lia].
    vm_compute. reflexivity.
  - intros Hc. apply (Hrange (fun c => c * 100) 1 9); [|lia].
    vm_compute. reflexivity.
  - intros Hc. apply (Hrange (fun c => c / 10 * 100) 10 90); [|lia].
    vm_compute. reflexivity.
  - intros Hc. destruct c as [|p|p]; [lia|lia|]. reflexivity.
Qed.

Lemma codeClass_leading_digit_witness :
  codeClass (Int 451) = Int (451 / 100 * 100) ∧ codeClass (Int 42) = Int (42 / 10 * 100).
Proof.
  split.
  - apply (proj1 (codeClass_leading_digit 451)). lia.
  - apply (proj1 (proj2 (proj2 (codeClass_leading_digit 42)))). lia.
Defined.

(** ** Class names *)

Lemma string_length_append (a b : string) :
  String.length (a +:+ b) = (String.length a + String.length b)%nat.
Proof. induction a as [|c a IH]; simpl; [done|]. by rewrite IH. Qed.

Lemma substring_after_prefix (a b : string) (n : nat) :
  String.substring (String.length a) n (a +:+ b) = String.substring 0 n b.
Proof. induction a as [|c a IH]; simpl; [done|]. exact IH. Qed.

Lemma slice_last5_append_Error name : slice_last5 (name +:+ "Error") = "Error".
Proof.
  unfold slice_last5. rewrite string_length_append. simpl String.length.
  replace (String.length name + 5 - 5)%nat with (String.length name) by lia.
  by rewrite substring_after_prefix.
Qed.

(** Every class name ends in [Error], a name that already does is left as it
    is, and so naming twice is naming once. *)
Theorem toClassName_suffix (name : string) :
  slice_last5 (toClassName name) = "Error"
  ∧ (slice_last5 name = "Error" → toClassName name = name)
  ∧ (slice_last5 name ≠ "Error" → toClassName name = name +:+ "Error")
  ∧ toClassName (toClassName name) = toClassName name.
Proof.
  assert (Hsuffix : slice_last5 (toClassName name) = "Error").
  { unfold toClassName. destruct (String.eqb_spec (slice_last5 name) "Error"); [done|].
    apply slice_last5_append_Error. }
  split; [done|]. split; [|split].
  - intros H. unfold toClassName. by rewrite H.
  - intros H. unfold toClassName.
    by destruct (String.eqb_spec (slice_last5 name) "Error").
  - unfold toClassName at 1. by rewrite Hsuffix.
Qed.

Lemma toClassName_suffix_witness :
  toClassName "InternalServerError" = "InternalServerError"
  ∧ toClassName "NotFound" = "NotFound" +:+ "Error".
Proof.
  split.
  - apply (proj1 (proj2 (toClassName_suffix "InternalServerError"))). reflexivity.
  - apply (proj1 (proj2 (proj2 (toClassName_suffix "NotFound")))).
    vm_compute. discriminate.
Defined.

(** ** What the exports hold *)

Section ExportsContent.

Variable message : gmap Z string.
Variable toIdentifier : string → string.

Lemma switch_codeClass_Some name c C :
  switch_codeClass name c = Some C →
  code C = c ∧ className C = toClassName name
  ∧ ((kind C = ClientError ∧ codeClass (Int c) = Int 400)
     ∨ (kind C = ServerError ∧ codeClass (Int c) = Int 500)).
Proof.
  unfold switch_codeClass. intros H.
  repeat (case_match; try discriminate); simplify_eq; simpl; auto.
Qed.

Lemma forEachCode_content ex x key C :
  forEachCode message toIdentifier ex x !! key = Some C →
  ex !! key = Some C
  ∨ ∃ phrase, message !! x = Some phrase
              ∧ switch_codeClass (toIdentifier phrase) x = Some C
              ∧ (key = String_of_num (Int x) ∨ key = toIdentifier phrase).
Proof.
  unfold forEachCode. destruct (message !! x) as [phrase|] eqn:Hphrase; [|by left].
  simpl. destruct (switch_codeClass (toIdentifier phrase) x) as [C'|] eqn:Hswitch;
    [|by left].
  destruct (decide (key = toIdentifier phrase)) as [->|Hname].
  { rewrite lookup_insert_eq. intros [= ->]. right. eauto 6. }
  rewrite lookup_insert_ne by done.
  destruct (decide (key = String_of_num (Int x))) as [->|Hnum].
  { rewrite lookup_insert_eq. intros [= ->]. right. eauto 6. }
  rewrite lookup_insert_ne by done. by left.
Qed.

Lemma populate_content cs : ∀ ex key C,
  populateConstructorExports message toIdentifier ex cs !! key = Some C →
  ex !! key = Some C
  ∨ ∃ x phrase, x ∈ cs ∧ message !! x = Some phrase
                ∧ switch_codeClass (toIdentifier phrase) x = Some C
                ∧ (key = String_of_num (Int x) ∨ key = toIdentifier phrase).
Proof.
  induction cs as [|x cs IH]; intros ex key C Hlook; [by left|].
  simpl in Hlook. apply IH in Hlook as [Hlook|(y & phrase & Hy & Hrest)].
  - apply forEachCode_content in Hlook as [Hlook|(phrase & Hrest)]; [by left|].
    right. exists x, phrase. split; [apply list_elem_of_here|done].
  - right. exists y, phrase. split; [by apply list_elem_of_further|done].
Qed.

Lemma exports_entry (key : string) (C : ctor) :
  exports message toIdentifier !! key = Some C →
  ∃ phrase,
    message !! code C = Some phrase
    ∧ (key = String_of_num (Int (code C)) ∨ key = toIdentifier phrase)
    ∧ className C = toClassName (toIdentifier phrase)
    ∧ ((kind C = ClientError ∧ codeClass (Int (code C)) = Int 400)
       ∨ (kind C = ServerError ∧ codeClass (Int (code C)) = Int 500)).
Proof.
  unfold exports. intros Hlook.
  apply populate_content in Hlook as [Hlook|(x & phrase & _ & Hphrase & Hswitch & Hkey)].
  { by rewrite lookup_empty in Hlook. }
  apply switch_codeClass_Some in Hswitch as (<- & Hname & Hkind).
  exists phrase. done.
Qed.

(** The exports hold nothing but the classes of registered codes whose class
    is 400 or 500: an entry sits under the numeral of its code or under the
    identifier of its reason phrase, is a client class exactly when the class
    of the code is 400, and is named after the phrase. *)
Theorem exports_content (key : string) (C : ctor) :
  exports message toIdentifier !! key = Some C →
  ∃ phrase,
    message !! code C = Some phrase
    ∧ (key = String_of_num (Int (code C)) ∨ key = toIdentifier phrase)
    ∧ className C = toClassName (toIdentifier phrase)
    ∧ ((kind C = ClientError ∧ codeClass (Int (code C)) = Int 400)
       ∨ (kind C = ServerError ∧ codeClass (Int (code C)) = Int 500)).
Proof. apply exports_entry. Qed.

End ExportsContent.

Lemma exports_content_witness :
  ∃ phrase,
    statuses !! code (Ctor ServerError 503 "ServiceUnavailableError") = Some phrase
    ∧ ("ServiceUnavailable"
       = String_of_num (Int (code (Ctor ServerError 503 "ServiceUnavailableError")))
       ∨ "ServiceUnavailable" = toidentifier phrase)
    ∧ className (Ctor ServerError 503 "ServiceUnavailableError")
      = toClassName (toidentifier phrase)
    ∧ ((kind (Ctor ServerError 503 "ServiceUnavailableError") = ClientError
        ∧ codeClass (Int (code (Ctor ServerError 503 "ServiceUnavailableError"))) = Int 400)
       ∨ (kind (Ctor ServerError 503 "ServiceUnavailableError") = ServerError
          ∧ codeClass (Int (code (Ctor ServerError 503 "ServiceUnavailableError")))
            = Int 500)).
Proof.
  apply (exports_content statuses toidentifier "ServiceUnavailable").
  vm_compute. reflexivity.
Defined.

(** ** Codes of the range that the registry does not know *)

Section ClassFallback.

Variable message : gmap Z string.
Variable toIdentifier : string → string.

Lemma exports_lookup_None c :
  message !! c = None →
  key_owned message toIdentifier c (pretty c) →
  exports message toIdentifier !! pretty c = None.
Proof.
  intros Hnone Hown.
  destruct (exports message toIdentifier !! pretty c) as [C|] eqn:Hlook; [|done].
  apply exports_entry in Hlook as (phrase & Hphrase & Hkey & _).
  assert (Hne : code C ≠ c) by (intros Heq; rewrite Heq in Hphrase; congruence).
  destruct (Hown (code C) phrase Hphrase Hne) as [Hid Hnum].
  destruct Hkey as [Hkey|Hkey]; simpl in Hkey; congruence.
Qed.

(** For a code [c] of [400, 599] that the registry does not know,
    [createError(c)] and [createError(c, m)] return an instance of the class
    of the hundred of [c] (400 or 500), carrying the name of that class, the
    status [c] itself, [expose] true exactly when [c < 500], and as message
    [m], or the reason phrase of the hundred when no message is given. *)
Theorem createError_class_fallback (c : Z) (phrase : string) (m : option string)
    (w : world) :
  400 ≤ c < 600 →
  message !! c = None →
  message !! (c / 100 * 100) = Some phrase →
  key_owned message toIdentifier c (pretty c) →
  key_owned message toIdentifier (c / 100 * 100) (pretty (c / 100 * 100)) →
  ∃ l w' C,
    createError message toIdentifier
      (VNum (Int c) :: match m with Some s => [VStr s] | None => [] end) w = Ok l w'
    ∧ heap w !! l = None
    ∧ code C = c / 100 * 100
    ∧ proto (obj_at w' l) = CCtor C
    ∧ fields (obj_at w' l) !! "name" = Some (VStr (toClassName (toIdentifier phrase)))
    ∧ fields (obj_at w' l) !! "status" = Some (VNum (Int c))
    ∧ fields (obj_at w' l) !! "statusCode" = Some (VNum (Int c))
    ∧ fields (obj_at w' l) !! "expose" = Some (VBool (c <? 500))
    ∧ fields (obj_at w' l) !! "message" = Some (VStr (default phrase m)).
Proof.
  intros Hc Hnone Hphrase Hownc Hownh.
  assert (Hh : ∃ h, c / 100 * 100 = h ∧ 400 ≤ h < 600 ∧ codeClass (Int c) = Int h
                    ∧ (h <? 500) = (c <? 500)).
  { destruct (Z.ltb_spec c 500).
    - exists 400. rewrite <- (Z.div_unique c 100 4 (c - 400)) by lia.
      split; [done|]. split; [lia|]. split; [by apply codeClass_4xx; lia|done].
    - exists 500. rewrite <- (Z.div_unique c 100 5 (c - 500)) by lia.
      split; [done|]. split; [lia|]. split; [by apply codeClass_5xx; lia|done]. }
  destruct Hh as (h & Hh & Hrest). rewrite Hh in *. clear Hh.
  rename Hrest into Hh.
  destruct Hh as (Hhr & Hclass & Hlt).
  pose (C := Ctor (if h <? 500 then ClientError else ServerError) h
               (toClassName (toIdentifier phrase))).
  assert (HC : exports message toIdentifier !! pretty h = Some C).
  { apply (exports_lookup _ _ h phrase); auto using switch_codeClass_error. }
  assert (Hne : c ≠ h) by (intros ->; congruence).
  pose (v := Vars None m (VNum (Int c)) BagLiteral).
  assert (Hscan : scan w 0 (VNum (Int c) :: match m with Some s => [VStr s] | None => [] end)
                    init_vars = inr v) by (by destruct m).
  destruct (createError_final message toIdentifier _ w v Hscan)
    as (w' & Hcall & Hobj & _ & _).
  assert (Hctor : resolve_ctor message toIdentifier (Int c) = Some C).
  { unfold resolve_ctor. simpl String_of_num.
    rewrite (exports_lookup_None c Hnone Hownc), Hclass. exact HC. }
  assert (Hfinal : final_object message toIdentifier v w
                   = decorate_obj (Some C) (Int c) (constructed (Some phrase) C m)).
  { unfold final_object, start_object, fresh_instance. cbn [status err msg props v].
    rewrite (resolve_status_in_range message c Hc), Hctor.
    rewrite merge_obj_empty. change (code C) with h. by rewrite Hphrase. }
  assert (Hgen : generic (Some C) (Int c) (constructed (Some phrase) C m) = true).
  { unfold generic. rewrite constructed_instanceof.
    rewrite (get_own _ _ _ (constructed_status _ C m)). simpl.
    apply negb_true_iff, bool_decide_eq_false. intros [= Heq]. congruence. }
  exists (target v w), w', C. split; [exact Hcall|].
  split; [apply fresh_not_in_heap|]. split; [done|].
  rewrite Hobj, Hfinal. unfold decorate_obj. rewrite Hgen. cbn [proto fields].
  split; [done|]. split; [|split; [|split; [|split]]].
  - rewrite !lookup_insert_ne by done. unfold constructed. cbn [fields className].
    rewrite lookup_insert_ne by done. by rewrite lookup_insert_eq.
  - by rewrite lookup_insert_eq.
  - rewrite lookup_insert_ne by done. by rewrite lookup_insert_eq.
  - rewrite !lookup_insert_ne by done. by rewrite lookup_insert_eq.
  - rewrite !lookup_insert_ne by done. apply constructed_message. by destruct m.
Qed.

End ClassFallback.

Lemma createError_class_fallback_witness :
  ∃ l w' C,
    createError statuses toidentifier
      (VNum (Int 450) :: match Some "odd" with Some s => [VStr s] | None => [] end)
      empty_world = Ok l w'
    ∧ heap empty_world !! l = None
    ∧ code C = 450 / 100 * 100
    ∧ proto (obj_at w' l) = CCtor C
    ∧ fields (obj_at w' l) !! "name" = Some (VStr (toClassName (toidentifier "Bad Request")))
    ∧ fields (obj_at w' l) !! "status" = Some (VNum (Int 450))
    ∧ fields (obj_at w' l) !! "statusCode" = Some (VNum (Int 450))
    ∧ fields (obj_at w' l) !! "expose" = Some (VBool (450 <? 500))
    ∧ fields (obj_at w' l) !! "message" = Some (VStr (default "Bad Request" (Some "odd"))).
Proof.
  apply (createError_class_fallback statuses toidentifier 450 "Bad Request" (Some "odd")
           empty_world).
  - lia.
  - vm_compute. reflexivity.
  - vm_compute. reflexivity.
  - unfold key_owned. apply (bool_decide_unpack _). vm_compute. exact I.
  - unfold key_owned. apply (bool_decide_unpack _). vm_compute. exact I.
Defined.

(** ** The heap outside the returned error *)

Section Effects.

Variable message : gmap Z string.
Variable toIdentifier : string → string.

(** A call changes the heap at the returned error only: that error is the
    last error object of the arguments, or else a location that was free;
    every other object is left as it was, and so is every object that is not
    an [Error], the property bags among them. *)
Theorem createError_frame (args : list value) (w : world) (l : loc) (w' : world) :
  createError message toIdentifier args w = Ok l w' →
  (last_error w args = Some l
   ∨ (last_error w args = None ∧ heap w !! l = None
      ∧ dom (heap w') = {[l]} ∪ dom (heap w)))
  ∧ (∀ l0, l0 ≠ l → heap w' !! l0 = heap w !! l0)
  ∧ (∀ b o, heap w !! b = Some o → instanceof o CError = false →
            heap w' !! b = Some o).
Proof.
  intros Hcall. unfold createError in Hcall.
  destruct (scan w 0 args init_vars) as [|v] eqn:Hscan; [done|].
  destruct (createError_final message toIdentifier args w v Hscan)
    as (w1 & Hc & _ & Hframe & Hdom).
  unfold createError in Hc. rewrite Hscan, Hcall in Hc. injection Hc as -> ->.
  destruct (scan_retains args w 0 init_vars v Hscan) as (Herr & _ & _).
  simpl in Herr.
  assert (Hwhich : last_error w args = Some (target v w)
                   ∨ (last_error w args = None ∧ heap w !! target v w = None
                      ∧ dom (heap w1) = {[target v w]} ∪ dom (heap w))).
  { unfold target in *. rewrite Herr in Hdom |- *.
    destruct (last_error w args) as [e|]; [by left|right].
    split; [done|]. split; [apply fresh_not_in_heap|done]. }
  split; [done|]. split; [done|].
  intros b o Hb Hnot. rewrite Hframe; [done|].
  intros ->. destruct Hwhich as [Hlast|(_ & Hfree & _)]; [|congruence].
  apply last_error_is_error in Hlast as [Hinst _].
  unfold obj_at in Hinst. rewrite Hb in Hinst. simpl in Hinst. congruence.
Qed.

End Effects.

Lemma createError_frame_witness :
  match createError statuses toidentifier [VNum (Int 404); VObj 1%positive]
          world_two_bags with
  | Ok l w' =>
      (last_error world_two_bags [VNum (Int 404); VObj 1%positive] = Some l
       ∨ (last_error world_two_bags [VNum (Int 404); VObj 1%positive] = None
          ∧ heap world_two_bags !! l = None
          ∧ dom (heap w') = {[l]} ∪ dom (heap world_two_bags)))
      ∧ (∀ l0, l0 ≠ l → heap w' !! l0 = heap world_two_bags !! l0)
      ∧ (∀ b o, heap world_two_bags !! b = Some o → instanceof o CError = false →
                heap w' !! b = Some o)
  | Throw _ => False
  end.
Proof.
  destruct (createError statuses toidentifier [VNum (Int 404); VObj 1%positive]
              world_two_bags) as [l w'|e] eqn:Hcall; [|vm_compute in Hcall; discriminate].
  exact (createError_frame statuses toidentifier _ _ l w' Hcall).
Defined.

(** ** A message beside an existing error *)

Section MessageIgnored.

Variable message : gmap Z string.
Variable toIdentifier : string → string.

Lemma scan_arg_msg_irrelevant w i a v1 v2 :
  err v1 = err v2 → status v1 = status v2 → props v1 = props v2 →
  match scan_arg w i a v1, scan_arg w i a v2 with
  | inl e1, inl e2 => e1 = e2
  | inr v1', inr v2' =>
      err v1' = err v2' ∧ status v1' = status v2' ∧ props v1' = props v2'
  | _, _ => False
  end.
Proof.
  intros He Hs Hp. unfold scan_arg.
  repeat (match goal with |- context [if ?c then _ else _] => destruct c end);
    simpl; rewrite ?He, ?Hs, ?Hp; done.
Qed.

Lemma scan_msg_irrelevant w args : ∀ k v1 v2,
  err v1 = err v2 → status v1 = status v2 → props v1 = props v2 →
  match scan w k args v1, scan w k args v2 with
  | inl e1, inl e2 => e1 = e2
  | inr v1', inr v2' =>
      err v1' = err v2' ∧ status v1' = status v2' ∧ props v1' = props v2'
  | _, _ => False
  end.
Proof.
  induction args as [|a args IH]; intros k v1 v2 He Hs Hp; [done|].
  simpl. pose proof (scan_arg_msg_irrelevant w k a v1 v2 He Hs Hp) as Harg.
  destruct (scan_arg w k a v1) as [e1|v1'], (scan_arg w k a v2) as [e2|v2'];
    try done.
  destruct Harg as (He' & Hs' & Hp'). by apply IH.
Qed.

Lemma scan_string_replaced w pre post m m' : ∀ k v,
  match scan w k (pre ++ VStr m :: post) v, scan w k (pre ++ VStr m' :: post) v with
  | inl e1, inl e2 => e1 = e2
  | inr v1', inr v2' =>
      err v1' = err v2' ∧ status v1' = status v2' ∧ props v1' = props v2'
  | _, _ => False
  end.
Proof.
  induction pre as [|a pre IH]; intros k v.
  - simpl. by apply scan_msg_irrelevant.
  - simpl. destruct (scan_arg w k a v) as [e|v']; [done|]. apply IH.
Qed.

Lemma build_msg_irrelevant v1 v2 w e :
  err v1 = Some e →
  err v1 = err v2 → status v1 = status v2 → props v1 = props v2 →
  build message toIdentifier v1 w = build message toIdentifier v2 w.
Proof.
  intros He1 He Hs Hp. unfold build. by rewrite <- He, <- Hs, <- Hp, He1.
Qed.

(** When a call holds an error object, the text of a string argument does
    not matter: the call with another text in its place has the same
    outcome, the same returned error and the same heap. *)
Theorem message_ignored_beside_error (pre post : list value) (m m' : string)
    (w : world) (e : loc) :
  last_error w (pre ++ VStr m :: post) = Some e →
  createError message toIdentifier (pre ++ VStr m :: post) w
  = createError message toIdentifier (pre ++ VStr m' :: post) w.
Proof.
  intros Hlast. unfold createError.
  pose proof (scan_string_replaced w pre post m m' 0%nat init_vars) as Hrel.
  destruct (scan w 0 (pre ++ VStr m :: post) init_vars) as [e1|v1] eqn:Hscan1,
           (scan w 0 (pre ++ VStr m' :: post) init_vars) as [e2|v2]; try done.
  - by rewrite Hrel.
  - destruct Hrel as (He & Hs & Hp).
    apply scan_retains in Hscan1 as (Herr & _ & _). rewrite Hlast in Herr.
    by apply (build_msg_irrelevant v1 v2 w e).
Qed.

End MessageIgnored.

Lemma message_ignored_beside_error_witness :
  createError statuses toidentifier ([VObj 1%positive] ++ VStr "new text" :: [])
    world_with_error
  = createError statuses toidentifier ([VObj 1%positive] ++ VStr "" :: [])
      world_with_error.
Proof.
  apply (message_ignored_beside_error statuses toidentifier [VObj 1%positive] []
           "new text" "" world_with_error 1%positive).
  vm_compute. reflexivity.
Defined.

(** ** What [isHttpError] accepts *)

Lemma get_expose_boolean o :
  typeof (get o "expose") = "boolean" → ∃ b, fields o !! "expose" = Some (VBool b).
Proof.
  unfold get. destruct (fields o !! "expose") as [x|].
  - destruct x; try discriminate. eauto.
  - simpl. by destruct (instanceof o CError).
Qed.

Lemma get_statusCode_number o :
  typeof (get o "statusCode") = "number" →
  ∃ n, fields o !! "statusCode" = Some (VNum n).
Proof.
  rewrite get_statusCode_key. destruct (fields o !! "statusCode") as [x|]; [|done].
  destruct x; try discriminate. eauto.
Qed.

(** [isHttpError] accepts exactly the objects that are instances of the base
    class, whatever their fields, and the other [Error] objects that own a
    boolean [expose] and a [status] and a [statusCode] holding the same
    number, NaN excepted. *)
Theorem isHttpError_iff (val : value) (w : world) :
  isHttpError val w = true
  ↔ ∃ l, val = VObj l
         ∧ (instanceof (obj_at w l) CHttpError = true
            ∨ (instanceof (obj_at w l) CError = true
               ∧ ∃ b n, fields (obj_at w l) !! "expose" = Some (VBool b)
                        ∧ fields (obj_at w l) !! "statusCode" = Some (VNum n)
                        ∧ fields (obj_at w l) !! "status" = Some (VNum n)
                        ∧ n ≠ NaN)).
Proof.
  split.
  - unfold isHttpError. destruct val; simpl; try done; try (by destruct (_ || _)).
    intros H. exists l. split; [done|].
    destruct (instanceof (obj_at w l) CHttpError); [by left|right].
    apply andb_true_iff in H as [H Heq]. apply andb_true_iff in H as [H Hcode].
    apply andb_true_iff in H as [Herr Hexp].
    apply String.eqb_eq in Hexp, Hcode.
    apply get_expose_boolean in Hexp as [b Hb].
    apply get_statusCode_number in Hcode as [n Hn].
    split; [done|]. exists b, n. split; [done|]. split; [done|].
    apply strict_eq_true in Heq as Hsame.
    rewrite (get_own _ _ _ Hn) in Hsame. split; [by apply get_status_num|].
    intros ->. rewrite (get_own _ _ _ Hn) in Heq.
    unfold strict_eq in Heq. by destruct (get (obj_at w l) "status") as [| |?|[]|?|?|?|?|?].
  - intros (l & -> & [Hinst|(Herr & b & n & Hb & Hn & Hs & Hnan)]).
    + by apply isHttpError_instance.
    + by apply (isHttpError_duck l w b n).
Qed.

(** ** Decorating an error that is not an [HttpError] *)

Section GenericError.

Variable message : gmap Z string.
Variable toIdentifier : string → string.

(** Passing alone an [Error] that is not an instance of the base class
    returns it with [status] and [statusCode] set to the status resolved from
    its own [status], else its own [statusCode], else 500, with [expose] set
    to whether that status is below 500, and with its class and every other
    own field unchanged. *)
Theorem generic_error_decorated (e : loc) (w : world) :
  instanceof (obj_at w e) CError = true →
  instanceof (obj_at w e) CHttpError = false →
  ∃ w',
    createError message toIdentifier [VObj e] w = Ok e w'
    ∧ proto (obj_at w' e) = proto (obj_at w e)
    ∧ fields (obj_at w' e) !! "status"
      = Some (VNum (resolve_status message
                      (js_or (get (obj_at w e) "status")
                         (js_or (get (obj_at w e) "statusCode") (VNum (Int 500))))))
    ∧ fields (obj_at w' e) !! "statusCode" = fields (obj_at w' e) !! "status"
    ∧ fields (obj_at w' e) !! "expose"
      = Some (VBool (num_lt (resolve_status message
                               (js_or (get (obj_at w e) "status")
                                  (js_or (get (obj_at w e) "statusCode")
                                     (VNum (Int 500))))) 500))
    ∧ (∀ key, key ≠ "expose" → key ≠ "status" → key ≠ "statusCode" →
              fields (obj_at w' e) !! key = fields (obj_at w e) !! key).
Proof.
  intros Herr Hnot.
  set (st := js_or (get (obj_at w e) "status")
               (js_or (get (obj_at w e) "statusCode") (VNum (Int 500)))).
  pose (v := Vars (Some e) None st BagLiteral).
  assert (Hscan : scan w 0 [VObj e] init_vars = inr v).
  { simpl. by rewrite scan_arg_VObj, Herr. }
  destruct (createError_final message toIdentifier [VObj e] w v Hscan)
    as (w' & Hcall & Hobj & _ & _).
  change (target v w) with e in *.
  exists w'. split; [exact Hcall|]. rewrite Hobj.
  unfold final_object, start_object. cbn [status err msg props v].
  rewrite merge_obj_empty. unfold decorate_obj.
  rewrite (generic_not_HttpError _ _ _ Hnot). cbn [proto fields].
  split; [done|]. split; [by rewrite lookup_insert_eq|].
  split; [rewrite lookup_insert_ne by done; by rewrite !lookup_insert_eq|].
  split; [rewrite !lookup_insert_ne by done; by rewrite lookup_insert_eq|].
  intros key H1 H2 H3. by rewrite !lookup_insert_ne.
Qed.

End GenericError.

Lemma generic_error_decorated_witness :
  ∃ w',
    createError statuses toidentifier [VObj 1%positive] world_with_error = Ok 1%positive w'
    ∧ proto (obj_at w' 1%positive) = proto (obj_at world_with_error 1%positive)
    ∧ fields (obj_at w' 1%positive) !! "status"
      = Some (VNum (resolve_status statuses
                      (js_or (get (obj_at world_with_error 1%positive) "status")
                         (js_or (get (obj_at world_with_error 1%positive) "statusCode")
                            (VNum (Int 500))))))
    ∧ fields (obj_at w' 1%positive) !! "statusCode"
      = fields (obj_at w' 1%positive) !! "status"
    ∧ fields (obj_at w' 1%positive) !! "expose"
      = Some (VBool (num_lt (resolve_status statuses
                               (js_or (get (obj_at world_with_error 1%positive) "status")
                                  (js_or (get (obj_at world_with_error 1%positive)
                                            "statusCode")
                                     (VNum (Int 500))))) 500))
    ∧ (∀ key, key ≠ "expose" → key ≠ "status" → key ≠ "statusCode" →
              fields (obj_at w' 1%positive) !! key
              = fields (obj_at world_with_error 1%positive) !! key).
Proof.
  apply (generic_error_decorated statuses toidentifier 1%positive world_with_error).
  - vm_compute. reflexivity.
  - vm_compute. reflexivity.
Defined.

(** ** The message of a new error *)

Lemma constructed_message_field phrase C m :
  fields (constructed phrase C m) !! "message"
  = VStr <$> match m with Some x => Some x | None => phrase end.
Proof.
  unfold constructed. cbn [fields]. rewrite !lookup_insert_ne by done.
  destruct (match m with Some x => Some x | None => phrase end);
    [by rewrite lookup_singleton_eq|by rewrite lookup_empty].
Qed.

Section NewMessage.

Variable message : gmap Z string.
Variable toIdentifier : string → string.

Lemma new_error_obj_message m s :
  fields (new_error_obj message m s) !! "message"
  = VStr <$> match m with
             | Some x => if String.eqb x "" then statuses_message message s else Some x
             | None => statuses_message message s
             end.
Proof.
  unfold new_error_obj. cbn [fields truthy].
  destruct m as [x|]; [destruct (String.eqb x "")|]; simpl;
    by destruct (statuses_message message s);
       rewrite ?lookup_singleton_eq, ?lookup_empty.
Qed.

Lemma scan_arg_msg w i a v v' :
  scan_arg w i a v = inr v' →
  msg v' = match string_of a with Some m => Some m | None => msg v end.
Proof.
  unfold scan_arg. destruct a; simpl; try discriminate.
  - by intros [= <-].
  - destruct (bool_decide (i = 0%nat)); [|discriminate]. by intros [= <-].
  - by intros [= <-].
  - destruct (instanceof (obj_at w l) CError); by intros [= <-].
Qed.

Lemma scan_msg w args : ∀ k v v',
  scan w k args v = inr v' →
  msg v' = match last_string args with Some m => Some m | None => msg v end.
Proof.
  induction args as [|a args IH]; intros k v v' Hscan.
  - by injection Hscan as <-.
  - simpl in Hscan. destruct (scan_arg w k a v) as [|v1] eqn:Harg; [done|].
    apply scan_arg_msg in Harg. apply IH in Hscan.
    unfold last_string in *. rewrite last_omap_cons, Hscan, Harg.
    by destruct (last (omap string_of args)).
Qed.

Lemma scan_status_first w args v :
  scan w 0 args init_vars = inr v → last_error w args = None →
  status v = first_status args.
Proof.
  destruct args as [|a args]; intros Hscan Hnone.
  - by injection Hscan as <-.
  - simpl in Hscan. destruct (scan_arg w 0 a init_vars) as [|v1] eqn:Harg; [done|].
    apply last_omap_None in Hnone as [Ha Hnone].
    rewrite (scan_status_keep w args 0 v1 v Hscan Hnone).
    unfold scan_arg, error_loc in *. destruct a; simpl in *; try discriminate;
      try (by injection Harg as <-).
    destruct (instanceof (obj_at w l) CError); [done|]. by injection Harg as <-.
Qed.

(** A call that holds no error object builds a new error whose message is
    the last string among the arguments; without one, or (on the plain
    [Error] path only) when that string is empty, it is the reason phrase:
    of the class found, or of the status when no class is found. The
    statement is for a bag without a [message] key. *)
Theorem new_error_message (args : list value) (w : world) :
  (∀ i a, args !! i = Some a → supported i a = true) →
  last_error w args = None →
  last_bag_fields w args !! "message" = None →
  ∃ l w',
    createError message toIdentifier args w = Ok l w'
    ∧ heap w !! l = None
    ∧ fields (obj_at w' l) !! "message"
      = VStr <$>
        match resolve_ctor message toIdentifier
                (resolve_status message (first_status args)) with
        | Some C =>
            match last_string args with
            | Some m => Some m
            | None => message !! code C
            end
        | None =>
            match last_string args with
            | Some m =>
                if String.eqb m ""
                then statuses_message message (resolve_status message (first_status args))
                else Some m
            | None => statuses_message message (resolve_status message (first_status args))
            end
        end.
Proof.
  intros Hsup Hnone Hbag.
  destruct (scan_all_supported args w 0 init_vars Hsup) as [v Hscan].
  destruct (createError_final message toIdentifier args w v Hscan)
    as (w' & Hcall & Hobj & _ & _).
  destruct (scan_retains args w 0 init_vars v Hscan) as (Herr & Hprops & _).
  rewrite Hnone in Herr. simpl in Herr, Hprops.
  pose proof (scan_msg w args 0 init_vars v Hscan) as Hmsg. simpl in Hmsg.
  pose proof (scan_status_first w args v Hscan Hnone) as Hst.
  assert (Htarget : target v w = fresh (dom (heap w))) by (unfold target; by rewrite Herr).
  exists (target v w), w'. split; [exact Hcall|].
  split; [rewrite Htarget; apply fresh_not_in_heap|].
  rewrite Hobj. unfold final_object, start_object, fresh_instance.
  rewrite Herr, Hst. cbn [merge_obj fields].
  set (s := resolve_status message (first_status args)).
  set (H := resolve_ctor message toIdentifier s).
  set (o0 := match H with
             | Some C => constructed (message !! code C) C (msg v)
             | None => new_error_obj message (msg v) s
             end).
  assert (Hstart : fields o0 !! "message"
                   = VStr <$> match H with
                              | Some C => match last_string args with
                                          | Some m => Some m
                                          | None => message !! code C
                                          end
                              | None => match last_string args with
                                        | Some m => if String.eqb m ""
                                                    then statuses_message message s
                                                    else Some m
                                        | None => statuses_message message s
                                        end
                              end).
  { unfold o0. destruct H as [C|].
    - rewrite constructed_message_field, Hmsg. by destruct (last_string args).
    - rewrite new_error_obj_message, Hmsg. by destruct (last_string args). }
  rewrite merge_fields_lookup. simpl.
  rewrite (decorate_obj_other H s o0 "message") by done.
  rewrite Hprops. unfold last_bag_fields in Hbag.
  destruct (last_bag w args) as [[]|]; try (by rewrite lookup_empty).
  destruct (bool_decide (l = target v w)).
  - rewrite (decorate_obj_other H s o0 "message") by done.
    by destruct (fields o0 !! "message").
  - by rewrite Hbag.
Qed.

End NewMessage.

Lemma new_error_message_witness :
  ∃ l w',
    createError statuses toidentifier [VNum (Int 200); VStr "first"; VStr ""] empty_world
    = Ok l w'
    ∧ heap empty_world !! l = None
    ∧ fields (obj_at w' l) !! "message"
      = VStr <$>
        match resolve_ctor statuses toidentifier
                (resolve_status statuses
                   (first_status [VNum (Int 200); VStr "first"; VStr ""])) with
        | Some C =>
            match last_string [VNum (Int 200); VStr "first"; VStr ""] with
            | Some m => Some m
            | None => statuses !! code C
            end
        | None =>
            match last_string [VNum (Int 200); VStr "first"; VStr ""] with
            | Some m =>
                if String.eqb m ""
                then statuses_message statuses
                       (resolve_status statuses
                          (first_status [VNum (Int 200); VStr "first"; VStr ""]))
                else Some m
            | None =>
                statuses_message statuses
                  (resolve_status statuses
                     (first_status [VNum (Int 200); VStr "first"; VStr ""]))
            end
        end.
Proof.
  apply (new_error_message statuses toidentifier
           [VNum (Int 200); VStr "first"; VStr ""] empty_world).
  - intros [|[|[|i]]] a Ha; simpl in Ha; try discriminate; by injection Ha as <-.
  - vm_compute. reflexivity.
  - vm_compute. reflexivity.
Defined.

(** The two paths treat an empty message differently: the class of 404 keeps
    it, the plain [Error] built for 200 takes the reason phrase instead. *)
Example empty_message_kept_by_class :
  result_field (createError statuses toidentifier [VNum (Int 404); VStr ""] empty_world)
    "message" = Some (VStr "")
  ∧ result_field (createError statuses toidentifier [VNum (Int 200); VStr ""] empty_world)
      "message" = Some (VStr "OK").
Proof. split; vm_compute; reflexivity. Qed.

(** ** The order of the arguments *)

Section Order.

Variable message : gmap Z string.
Variable toIdentifier : string → string.

Lemma scan_arg_message w a :
  role_of w a = Some RMessage →
  ∃ s, ∀ i v, scan_arg w i a v = inr (Vars (err v) (Some s) (status v) (props v)).
Proof.
  unfold role_of. destruct a; try discriminate.
  - intros _. by exists s.
  - by destruct (instanceof (obj_at w l) CError).
Qed.

Lemma scan_arg_bag w a :
  role_of w a = Some RBag →
  ∀ i v, scan_arg w i a v = inr (Vars (err v) (msg v) (status v) (BagArg a)).
Proof.
  unfold role_of. destruct a; try discriminate.
  - done.
  - destruct (instanceof (obj_at w l) CError) eqn:Hinst; [discriminate|].
    intros _ i v. by rewrite scan_arg_VObj, Hinst.
Qed.

Lemma scan_arg_error w a :
  role_of w a = Some RError →
  ∃ l x y, ∀ i v,
    scan_arg w i a v = inr (Vars (Some l) (msg v) (js_or x (js_or y (status v))) (props v)).
Proof.
  unfold role_of. destruct a; try discriminate.
  destruct (instanceof (obj_at w l) CError) eqn:Hinst; [|discriminate].
  intros _. eexists l, _, _. intros i v. by rewrite scan_arg_VObj, Hinst.
Qed.

Lemma scan_arg_swap w i j a1 a2 r1 r2 v :
  role_of w a1 = Some r1 → role_of w a2 = Some r2 →
  r1 ≠ r2 → r1 ≠ RStatus → r2 ≠ RStatus →
  ∃ v1 v2 v',
    scan_arg w i a1 v = inr v1 ∧ scan_arg w j a2 v1 = inr v'
    ∧ scan_arg w i a2 v = inr v2 ∧ scan_arg w j a1 v2 = inr v'.
Proof.
  intros H1 H2 Hne Hs1 Hs2.
  destruct r1, r2; try done.
  - destruct (scan_arg_error w a1 H1) as (l & x & y & E1).
    destruct (scan_arg_message w a2 H2) as (s & E2).
    eexists _, _, _. rewrite !E1, !E2. done.
  - destruct (scan_arg_error w a1 H1) as (l & x & y & E1).
    pose proof (scan_arg_bag w a2 H2) as E2.
    eexists _, _, _. rewrite !E1, !E2. done.
  - destruct (scan_arg_message w a1 H1) as (s & E1).
    destruct (scan_arg_error w a2 H2) as (l & x & y & E2).
    eexists _, _, _. rewrite !E1, !E2. done.
  - destruct (scan_arg_message w a1 H1) as (s & E1).
    pose proof (scan_arg_bag w a2 H2) as E2.
    eexists _, _, _. rewrite !E1, !E2. done.
  - pose proof (scan_arg_bag w a1 H1) as E1.
    destruct (scan_arg_error w a2 H2) as (l & x & y & E2).
    eexists _, _, _. rewrite !E1, !E2. done.
  - pose proof (scan_arg_bag w a1 H1) as E1.
    destruct (scan_arg_message w a2 H2) as (s & E2).
    eexists _, _, _. rewrite !E1, !E2. done.
Qed.

(** Two neighbouring arguments of different roles, neither of them a number,
    can be exchanged: the call has the same outcome, the same returned error
    and the same heap. Only a number is bound to its position, and only
    among arguments of one role does the order (the last one wins) matter. *)
Theorem neighbours_exchange (pre post : list value) (a1 a2 : value) (r1 r2 : role)
    (w : world) :
  role_of w a1 = Some r1 → role_of w a2 = Some r2 →
  r1 ≠ r2 → r1 ≠ RStatus → r2 ≠ RStatus →
  createError message toIdentifier (pre ++ a1 :: a2 :: post) w
  = createError message toIdentifier (pre ++ a2 :: a1 :: post) w.
Proof.
  intros H1 H2 Hne Hs1 Hs2. unfold createError.
  assert (Hscan : ∀ k v, scan w k (pre ++ a1 :: a2 :: post) v
                         = scan w k (pre ++ a2 :: a1 :: post) v).
  { induction pre as [|a pre IH]; intros k v.
    - simpl.
      destruct (scan_arg_swap w k (S k) a1 a2 r1 r2 v H1 H2 Hne Hs1 Hs2)
        as (v1 & v2 & v' & -> & -> & -> & ->). done.
    - simpl. destruct (scan_arg w k a v); [done|]. apply IH. }
  by rewrite Hscan.
Qed.

End Order.

Lemma neighbours_exchange_witness :
  createError statuses toidentifier
    ([VNum (Int 404)] ++ VStr "gone" :: VObj 1%positive :: []) world_two_bags
  = createError statuses toidentifier
      ([VNum (Int 404)] ++ VObj 1%positive :: VStr "gone" :: []) world_two_bags.
Proof.
  apply (neighbours_exchange statuses toidentifier [VNum (Int 404)] []
           (VStr "gone") (VObj 1%positive) RMessage RBag world_two_bags).
  - reflexivity.
  - vm_compute. reflexivity.
  - discriminate.
  - discriminate.
  - discriminate.
Defined.

(** ** Registered codes that are not error codes *)

Lemma codeClass_hundreds c : 100 ≤ c < 1000 → codeClass (Int c) = Int (c / 100 * 100).
Proof.
  intros Hc.
  assert (Hall : forallb (fun c => bool_decide (codeClass (Int c) = Int (c / 100 * 100)))
                   (seqZ 100 900) = true) by (vm_compute; reflexivity).
  rewrite forallb_forall in Hall.
  eapply bool_decide_eq_true_1, Hall, list_elem_of_In, elem_of_seqZ. lia.
Qed.

Section NonErrorCodes.

Variable message : gmap Z string.
Variable toIdentifier : string → string.

Lemma exports_no_class c :
  codeClass (Int c) ≠ Int 400 → codeClass (Int c) ≠ Int 500 →
  key_owned message toIdentifier c (pretty c) →
  exports message toIdentifier !! pretty c = None.
Proof.
  intros H4 H5 Hown.
  destruct (exports message toIdentifier !! pretty c) as [C|] eqn:Hlook; [|done].
  apply exports_entry in Hlook as (phrase & Hphrase & Hkey & _ & Hkind).
  destruct (decide (code C = c)) as [Heq|Hne].
  - rewrite Heq in Hkind. by destruct Hkind as [[_ ?]|[_ ?]].
  - destruct (Hown (code C) phrase Hphrase Hne) as [Hid Hnum].
    destruct Hkey as [Hkey|Hkey]; simpl in Hkey; congruence.
Qed.

(** For a registered code [c] of [100, 399], [createError(c)] and
    [createError(c, m)] keep the status: they return a new plain [Error], of
    no class of the module and with no own [name],
    whose [status] and [statusCode] are [c], whose [expose] is true, and
    whose message is [m], or the reason phrase of [c] when [m] is absent or
    empty; [isHttpError] accepts it. *)
Theorem createError_registered_non_error (c : Z) (phrase : string) (m : option string)
    (w : world) :
  100 ≤ c < 400 →
  message !! c = Some phrase →
  phrase ≠ "" →
  key_owned message toIdentifier c (pretty c) →
  key_owned message toIdentifier (c / 100 * 100) (pretty (c / 100 * 100)) →
  ∃ l w',
    createError message toIdentifier
      (VNum (Int c) :: match m with Some s => [VStr s] | None => [] end) w = Ok l w'
    ∧ heap w !! l = None
    ∧ proto (obj_at w' l) = CError
    ∧ fields (obj_at w' l) !! "name" = None
    ∧ fields (obj_at w' l) !! "status" = Some (VNum (Int c))
    ∧ fields (obj_at w' l) !! "statusCode" = Some (VNum (Int c))
    ∧ fields (obj_at w' l) !! "expose" = Some (VBool true)
    ∧ fields (obj_at w' l) !! "message"
      = Some (VStr match m with
                   | Some x => if String.eqb x "" then phrase else x
                   | None => phrase
                   end)
    ∧ isHttpError (VObj l) w' = true.
Proof.
  intros Hc Hphrase Hne Hownc Hownh.
  assert (Hclass : codeClass (Int c) = Int (c / 100 * 100))
    by (apply codeClass_hundreds; lia).
  assert (Hh : ∃ h, c / 100 * 100 = h ∧ 100 ≤ h < 400 ∧ h / 100 * 100 = h).
  { exists (c / 100 * 100). split; [done|].
    assert (1 ≤ c / 100 < 4).
    { split; [apply Z.div_le_lower_bound; lia|apply Z.div_lt_upper_bound; lia]. }
    split; [lia|]. by rewrite Z.div_mul. }
  destruct Hh as (h & Hh & Hhr & Hhh). rewrite Hh in *. clear Hh.
  assert (Hclassh : codeClass (Int h) = Int h).
  { rewrite codeClass_hundreds by lia. by rewrite Hhh. }
  assert (Hctor : resolve_ctor message toIdentifier (Int c) = None).
  { unfold resolve_ctor. simpl String_of_num.
    rewrite (exports_no_class c), Hclass; [| rewrite Hclass; intros [=]; lia..|done].
    simpl String_of_num. apply exports_no_class; [| |done];
      rewrite Hclassh; intros [=]; lia. }
  assert (Hres : resolve_status message (VNum (Int c)) = Int c).
  { unfold resolve_status. simpl. rewrite Hphrase. simpl.
    by destruct (String.eqb_spec phrase ""). }
  pose (v := Vars None m (VNum (Int c)) BagLiteral).
  assert (Hscan : scan w 0 (VNum (Int c) :: match m with Some s => [VStr s] | None => [] end)
                    init_vars = inr v) by (by destruct m).
  destruct (createError_final message toIdentifier _ w v Hscan)
    as (w' & Hcall & Hobj & _ & _).
  unfold createError in Hcall. rewrite Hscan in Hcall.
  assert (Hfinal : final_object message toIdentifier v w
                   = decorate_obj None (Int c) (new_error_obj message m (Int c))).
  { unfold final_object, start_object, fresh_instance. cbn [status err msg props v].
    rewrite Hres, Hctor. by rewrite merge_obj_empty. }
  assert (Hfields :
    proto (obj_at w' (target v w)) = CError
    ∧ fields (obj_at w' (target v w)) !! "name" = None
    ∧ fields (obj_at w' (target v w)) !! "status" = Some (VNum (Int c))
    ∧ fields (obj_at w' (target v w)) !! "statusCode" = Some (VNum (Int c))
    ∧ fields (obj_at w' (target v w)) !! "expose" = Some (VBool true)
    ∧ fields (obj_at w' (target v w)) !! "message"
      = Some (VStr match m with
                   | Some x => if String.eqb x "" then phrase else x
                   | None => phrase
                   end)).
  { rewrite Hobj, Hfinal. unfold decorate_obj. cbn [generic proto fields].
    split; [done|]. split; [|split; [|split; [|split]]].
    - rewrite !lookup_insert_ne by done. by apply new_error_obj_no_field.
    - by rewrite lookup_insert_eq.
    - rewrite lookup_insert_ne by done. by rewrite lookup_insert_eq.
    - rewrite !lookup_insert_ne by done. rewrite lookup_insert_eq. simpl.
      do 2 f_equal. apply Z.ltb_lt. lia.
    - rewrite !lookup_insert_ne by done. rewrite new_error_obj_message. simpl.
      rewrite Hphrase. destruct m as [x|]; [|done]. by destruct (String.eqb x ""). }
  destruct Hfields as (Hproto & Hname & Hst & Hcode & Hexp & Hmsg).
  exists (target v w), w'. unfold createError. rewrite Hscan.
  split; [exact Hcall|]. split; [apply fresh_not_in_heap|].
  repeat (split; [done|]).
  apply (isHttpError_duck _ _ true (Int c)); try done.
  unfold instanceof. rewrite Hproto. by apply bool_decide_eq_true, list_elem_of_here.
Qed.

End NonErrorCodes.

Lemma createError_registered_non_error_witness :
  ∃ l w',
    createError statuses toidentifier
      (VNum (Int 302) :: match Some "" with Some s => [VStr s] | None => [] end)
      empty_world = Ok l w'
    ∧ heap empty_world !! l = None
    ∧ proto (obj_at w' l) = CError
    ∧ fields (obj_at w' l) !! "name" = None
    ∧ fields (obj_at w' l) !! "status" = Some (VNum (Int 302))
    ∧ fields (obj_at w' l) !! "statusCode" = Some (VNum (Int 302))
    ∧ fields (obj_at w' l) !! "expose" = Some (VBool true)
    ∧ fields (obj_at w' l) !! "message"
      = Some (VStr match Some "" with
                   | Some x => if String.eqb x "" then "Found" else x
                   | None => "Found"
                   end)
    ∧ isHttpError (VObj l) w' = true.
Proof.
  apply (createError_registered_non_error statuses toidentifier 302 "Found" (Some "")
           empty_world).
  - lia.
  - vm_compute. reflexivity.
  - discriminate.
  - unfold key_owned. apply (bool_decide_unpack _). vm_compute. exact I.
  - unfold key_owned. apply (bool_decide_unpack _). vm_compute. exact I.
Defined.

Lemma isHttpError_iff_witness : isHttpError (VObj 1%positive) world_tampered = true.
Proof.
  apply (proj2 (isHttpError_iff (VObj 1%positive) world_tampered)).
  exists 1%positive. split; [reflexivity|]. left. vm_compute. reflexivity.
Defined.
